(** * Agent session protocol and client reconciliation

    A shallow embedding of the agent process ([agent/src/agent.ts]) and of
    the polling page component ([app/page.tsx]) of the hackathon starter,
    with the properties its design document states about them.

    - [Js]         the few JavaScript idioms the code relies on
    - [Content]    text extraction: [parseContent], [getUserMessageText]
    - [LineReader] the buffered stdin reader
    - [Agent]      [flushVolume], [callCallback] and [main]
    - [Home]       the polling effect, the pending filter, the refresh gate *)

From Stdlib Require Import List String Ascii Bool Arith Lia QArith.
Import ListNotations.
Open Scope string_scope.
Open Scope list_scope.
Open Scope nat_scope.

(** ** JavaScript idioms *)

Module Js.

(** The one-character string a [\n] escape denotes. *)
Definition LF : string := String (ascii_of_nat 10) EmptyString.

(** Truthiness of a [string | undefined]: [undefined] and the empty string
    are falsy. *)
Definition truthy (v : option string) : bool :=
  match v with
  | Some s => negb (s =? "")%string
  | None => false
  end.

(** [a || b] on [string | undefined]. *)
Definition or_else (a b : option string) : option string :=
  if truthy a then a else b.

(** [Array.prototype.join] on an array of strings. *)
Definition join (sep : string) (xs : list string) : string :=
  String.concat sep xs.

(** [Array.prototype.some]. *)
Definition some {A} (f : A -> bool) (xs : list A) : bool := existsb f xs.

End Js.

(** ** Text extraction *)

Module Content.

(** A content segment, [{ type: string; text?: string }]. *)
Record ContentBlock := {
  block_type : string;
  block_text : option string
}.

(** [SessionMessageCommand] of agent.ts. *)
Record SessionMessageCommand := {
  msg_type : string;
  msg_text : option string;
  msg_content : option (list ContentBlock)
}.

(** The value of a message's [content]: [string | unknown[]]. *)
Inductive MessageContent :=
| ContentString (s : string)
| ContentArray (bs : list ContentBlock).

(** The predicate both functions filter with:
    [b.type === "text" && b.text]. *)
Definition is_text_block (b : ContentBlock) : bool :=
  (block_type b =? "text")%string && Js.truthy (block_text b).

(** [b.text!] / [b.text] under the filter. *)
Definition text_of (b : ContentBlock) : string :=
  match block_text b with
  | Some t => t
  | None => ""
  end.

(** [.filter(...).map(...).join("\n")], shared by both functions. *)
Definition join_text_blocks (bs : list ContentBlock) : string :=
  Js.join Js.LF (map text_of (filter is_text_block bs)).

(** agent.ts, [parseContent]. *)
Definition parseContent (msg : SessionMessageCommand) : string :=
  if Js.truthy (msg_text msg) then
    match msg_text msg with Some t => t | None => "" end
  else
    match msg_content msg with
    | Some bs => join_text_blocks bs
    | None => ""
    end.

(** page.tsx, [getUserMessageText]. *)
Definition getUserMessageText (content : MessageContent) : string :=
  match content with
  | ContentString s => s
  | ContentArray bs => join_text_blocks bs
  end.

(** A text segment with the given text. *)
Definition text_segment (s : string) : ContentBlock :=
  {| block_type := "text"; block_text := Some s |}.

(** The spec's wording of extraction: plain concatenation of the texts of
    the text segments, in list order. *)
Definition concat_texts (bs : list ContentBlock) : string :=
  String.concat "" (map text_of (filter (fun b => (block_type b =? "text")%string) bs)).

(** The texts extraction keeps, written from the description: a segment
    counts when its type is "text" and it has a text that is not empty. *)
Fixpoint kept_texts (bs : list ContentBlock) : list string :=
  match bs with
  | [] => []
  | b :: rest =>
      match block_text b with
      | Some t =>
          if (block_type b =? "text")%string
          then (if (t =? "")%string then kept_texts rest
                else t :: kept_texts rest)
          else kept_texts rest
      | None => kept_texts rest
      end
  end.

(** Texts separated by single newlines. *)
Fixpoint newline_separated (ss : list string) : string :=
  match ss with
  | [] => ""
  | [s] => s
  | s :: rest => (s ++ Js.LF ++ newline_separated rest)%string
  end.

End Content.

(** ** The stdin line reader *)

Module LineReader.

(** The fields of [class LineReader].  A resolver is the [resolve] function
    of the promise one [readLine] call returned; it is identified by the
    index of that call. *)
Record t := {
  lines : list string;
  resolvers : list nat;
  closed : bool
}.

(** A promise being settled: the call it belongs to and the value it
    resolves with ([None] is [null]). *)
Definition settlement : Type := nat * option string.

(** [new LineReader(rl)]. *)
Definition create : t :=
  {| lines := []; resolvers := []; closed := false |}.

(** The [rl.on("line", ...)] handler. *)
Definition on_line (line : string) (r : t) : t * list settlement :=
  match resolvers r with
  | resolve :: rest =>
      ({| lines := lines r; resolvers := rest; closed := closed r |},
       [(resolve, Some line)])
  | [] =>
      ({| lines := lines r ++ [line]; resolvers := []; closed := closed r |},
       [])
  end.

(** The [while (this.resolvers.length > 0)] loop of the close handler. *)
Fixpoint resolve_all_null (rs : list nat) : list settlement :=
  match rs with
  | resolve :: rest => (resolve, None) :: resolve_all_null rest
  | [] => []
  end.

(** The [rl.on("close", ...)] handler. *)
Definition on_close (r : t) : t * list settlement :=
  ({| lines := lines r; resolvers := []; closed := true |},
   resolve_all_null (resolvers r)).

(** [readLine()], called as the [call]-th request. *)
Definition readLine (call : nat) (r : t) : t * list settlement :=
  match lines r with
  | line :: rest =>
      ({| lines := rest; resolvers := resolvers r; closed := closed r |},
       [(call, Some line)])
  | [] =>
      if closed r then (r, [(call, None)])
      else
        ({| lines := []; resolvers := resolvers r ++ [call];
            closed := closed r |}, [])
  end.

(** What can happen to a reader: a line arrives, the stream closes, or the
    consumer asks for a line. *)
Inductive event :=
| Line (line : string)
| Close
| ReadLine.

(** A reader in use: the reader, the number of [readLine] calls made so
    far, and every settlement so far, oldest first. *)
Record run_state := {
  reader : t;
  calls : nat;
  settled : list settlement
}.

Definition start : run_state :=
  {| reader := create; calls := 0; settled := [] |}.

(** The reader after one event, and the promises that event settles. *)
Definition react (e : event) (s : run_state) : t * list settlement :=
  match e with
  | Line line => on_line line (reader s)
  | Close => on_close (reader s)
  | ReadLine => readLine (calls s) (reader s)
  end.

Definition step (s : run_state) (e : event) : run_state :=
  {| reader := fst (react e s);
     calls := match e with ReadLine => S (calls s) | _ => calls s end;
     settled := settled s ++ snd (react e s) |}.

Definition run (evs : list event) : run_state := fold_left step evs start.

(** The lines of a trace, in arrival order. *)
Fixpoint arrived (evs : list event) : list string :=
  match evs with
  | Line line :: rest => line :: arrived rest
  | _ :: rest => arrived rest
  | [] => []
  end.

(** The lines handed to readers by a list of settlements, in order. *)
Fixpoint delivered (ss : list settlement) : list string :=
  match ss with
  | (_, Some line) :: rest => line :: delivered rest
  | (_, None) :: rest => delivered rest
  | [] => []
  end.

(** What every reachable reader satisfies: lines are buffered only while
    nobody waits, nobody waits once the stream has closed, promises are
    settled in the order of their calls, and lines are handed out in the
    order of their arrival. *)
Record invariant (evs : list event) (s : run_state) : Prop := {
  inv_idle : lines (reader s) = [] \/ resolvers (reader s) = [];
  inv_closed : closed (reader s) = true -> resolvers (reader s) = [];
  inv_calls : map fst (settled s) ++ resolvers (reader s) = seq 0 (calls s);
  inv_lines : delivered (settled s) ++ lines (reader s) = arrived evs
}.

(** *** The stream as [readline] drives it *)

Definition is_close (e : event) : bool :=
  match e with Close => true | _ => false end.

Definition is_line (e : event) : bool :=
  match e with Line _ => true | _ => false end.

(** A closed [readline] interface emits no more lines: no [Line] comes
    after a [Close]. *)
Fixpoint no_line_after_close (evs : list event) : bool :=
  match evs with
  | Close :: rest => forallb (fun e => negb (is_line e)) rest
  | _ :: rest => no_line_after_close rest
  | [] => true
  end.

(** What the settled promises look like when no line comes after the
    close: first lines, then only [null]s, and a [null] only with the
    stream closed and the buffer empty. *)
Record closing_invariant (evs : list event) (s : run_state) : Prop := {
  inv_was_closed : closed (reader s) = existsb is_close evs;
  inv_nulls_last :
    exists m,
      map snd (settled s)
      = map Some (delivered (settled s)) ++ repeat None m /\
      (m <> 0 -> closed (reader s) = true /\ lines (reader s) = [])
}.

End LineReader.

(** ** The agent process *)

Module Agent.

Import Content.

(** A JavaScript [number].  The agent only copies the engine's numbers into
    its frames and writes the literal [0]. *)
Definition number : Type := Q.

(** [ProcessStartCommand]. *)
Record ProcessStartCommand := {
  start_type : string;
  start_session_id : option string
}.

(** The [result] object of an [AgentMessage]. *)
Record Result := {
  duration_ms : option number;
  duration_api_ms : option number;
  total_cost_usd : option number;
  num_turns : option number
}.

(** [AgentMessage]: one outbound frame. *)
Record AgentMessage := {
  type : string;
  session_id : option string;
  message : option string;
  result : option Result
}.

(** The first argument of [callCallback]. *)
Inductive CallbackStatus := completed | error.

(** The JSON body [callCallback] posts. *)
Record CallbackBody := {
  status : CallbackStatus;
  sessionId : option string;
  errorMessage : option string
}.

(** What the process does to the outside, in order.  Writes to stderr
    ([debug], [console.error]) are not recorded. *)
Inductive effect :=
| Stdout (msg : AgentMessage)
    (** [emit]: [console.log(JSON.stringify(msg))] *)
| ExecSync (returned : bool)
    (** [execSync("sync")], and whether it returned ([true]) or threw *)
| Post (url : string) (body : CallbackBody)
    (** [fetch(callbackUrl, { method: "POST", ... })] *).

(** What [main] reads of a message the engine yields. *)
Record SDKMessage := {
  sdk_type : string;
  sdk_subtype : option string;
  sdk_session_id : option string;
  sdk_has_result : bool;   (** ["result" in message] *)
  sdk_duration_ms : option number;
  sdk_duration_api_ms : option number;
  sdk_total_cost_usd : option number;
  sdk_num_turns : option number
}.

(** One run of the engine's asynchronous iterator: the messages it yields
    and, when it then rejects, the message of the error it throws (when it
    does not, the iterator is done). *)
Record Query := {
  yields : list SDKMessage;
  throws : option string
}.

(** How the [try] block is left. *)
Inductive completion :=
| Normal
| Return
| Throw (errorMessage : string).

(** A step of the process: from the number of [sync] commands run so far
    to a value, the effects performed, oldest first, and the number of
    [sync] commands run by then. *)
Definition M (A : Type) : Type := nat -> A * list effect * nat.

Definition ret {A} (a : A) : M A := fun n => (a, [], n).

Definition bind {A B} (c : M A) (k : A -> M B) : M B :=
  fun n =>
    let '(a, es, n') := c n in
    let '(b, es', n'') := k a n' in
    (b, es ++ es', n'').

Definition perform (e : effect) : M unit := fun n => (tt, [e], n).

(** The parts of what a step returns. *)
Definition value {A} (r : A * list effect * nat) : A := fst (fst r).
Definition output {A} (r : A * list effect * nat) : list effect :=
  snd (fst r).
Definition count {A} (r : A * list effect * nat) : nat := snd r.

(** [emit]. *)
Definition emit (msg : AgentMessage) : M unit := perform (Stdout msg).

Definition frame (t : string) : AgentMessage :=
  {| type := t; session_id := None; message := None; result := None |}.

Definition process_error (m : string) : AgentMessage :=
  {| type := "process_error"; session_id := None; message := Some m;
     result := None |}.

Section Process.

#[local] Notation "x <- c ;; k" := (bind c (fun x => k))
  (at level 61, c at next level, right associativity).
#[local] Notation "c ;; k" := (bind c (fun _ => k))
  (at level 61, right associativity).

(** [process.env] and [process.cwd()]. *)
Variable WORKSPACE_DIR : option string.
Variable cwd : string.
Variable RESUME_SESSION_ID : option string.
Variable CALLBACK_URL : option string.

(** [JSON.parse] at the two types [main] reads it at; [None] when it
    throws. *)
Variable JSON_parse_start : string -> option ProcessStartCommand.
Variable JSON_parse_message : string -> option SessionMessageCommand.

(** The engine: [query({ prompt, options: { cwd, resume, ... } })]. *)
Variable query : string -> string -> option string -> Query.

(** Whether the [n]-th [sync] command returns. *)
Variable sync_returns : nat -> bool.

(** What the two [await reader.readLine()] resolve with. *)
Variable startLine msgLine : option string.

(** [process.env.WORKSPACE_DIR || process.cwd()]. *)
Definition workspace : string :=
  match WORKSPACE_DIR with
  | Some d => if Js.truthy WORKSPACE_DIR then d else cwd
  | None => cwd
  end.

(** [process.env.RESUME_SESSION_ID || undefined]. *)
Definition resumeSessionId : option string :=
  Js.or_else RESUME_SESSION_ID None.

(** [startMsg.session_id || resumeSessionId || undefined]. *)
Definition sessionIdToResume (startMsg : ProcessStartCommand)
  : option string :=
  Js.or_else (Js.or_else (start_session_id startMsg) resumeSessionId) None.

(** [flushVolume]: the [catch] swallows a failing [sync]. *)
Definition flushVolume : M unit :=
  fun n => (tt, [ExecSync (sync_returns n)], S n).

(** [callCallback]: nothing is sent without a [CALLBACK_URL]; a failing
    request is caught and logged. *)
Definition callCallback (st : CallbackStatus) (sid err : option string)
  : M unit :=
  match CALLBACK_URL with
  | Some callbackUrl =>
      if Js.truthy CALLBACK_URL then
        perform (Post callbackUrl
                   {| status := st; sessionId := sid; errorMessage := err |})
      else ret tt
  | None => ret tt
  end.

(** The body of the [for await] loop.  The locals are [currentSessionId]
    and [gotResult]. *)
Definition on_message (m : SDKMessage) (loc : option string * bool)
  : M (option string * bool) :=
  let (currentSessionId, gotResult) := loc in
  currentSessionId <-
    (if (sdk_type m =? "system")%string &&
        match sdk_subtype m with
        | Some st => (st =? "init")%string
        | None => false
        end
     then
       emit {| type := "session_started"; session_id := sdk_session_id m;
               message := None; result := None |} ;;
       ret (sdk_session_id m)
     else ret currentSessionId) ;;
  if sdk_has_result m && (sdk_type m =? "result")%string then
    emit {| type := "session_complete"; session_id := currentSessionId;
            message := None;
            result := Some {| duration_ms := sdk_duration_ms m;
                              duration_api_ms := sdk_duration_api_ms m;
                              total_cost_usd := sdk_total_cost_usd m;
                              num_turns := sdk_num_turns m |} |} ;;
    flushVolume ;;
    callCallback completed currentSessionId None ;;
    ret (currentSessionId, true)
  else ret (currentSessionId, gotResult).

Fixpoint for_await (ms : list SDKMessage) (loc : option string * bool)
  : M (option string * bool) :=
  match ms with
  | m :: rest => loc' <- on_message m loc ;; for_await rest loc'
  | [] => ret loc
  end.

(** [main] from the call of [query] to the end of the [try] block. *)
Definition run_query (prompt : string) (resume : option string)
  : M completion :=
  let q := query prompt workspace resume in
  loc <- for_await (yields q) (resume, false) ;;
  match throws q with
  | Some e => ret (Throw e)
  | None =>
      let (currentSessionId, gotResult) := loc : option string * bool in
      if negb gotResult then
        emit {| type := "session_complete"; session_id := currentSessionId;
                message := None;
                result := Some {| duration_ms := Some 0%Q;
                                  duration_api_ms := Some 0%Q;
                                  total_cost_usd := Some 0%Q;
                                  num_turns := Some 0%Q |} |} ;;
        flushVolume ;;
        callCallback completed currentSessionId None ;;
        ret Normal
      else ret Normal
  end.

(** The [try] block of [main]. *)
Definition main_try : M completion :=
  match startLine with
  | Some startLine' =>
    if Js.truthy startLine then
      match JSON_parse_start startLine' with
      | None =>
          emit (process_error "Invalid JSON for process_start") ;; ret Return
      | Some startMsg =>
        if negb (start_type startMsg =? "process_start")%string then
          emit (process_error "Expected process_start") ;; ret Return
        else
          emit {| type := "process_ready";
                  session_id :=
                    Js.or_else (sessionIdToResume startMsg) (Some "pending");
                  message := None; result := None |} ;;
          match msgLine with
          | Some msgLine' =>
            if Js.truthy msgLine then
              match JSON_parse_message msgLine' with
              | None =>
                  emit (process_error "Invalid JSON for session_message") ;;
                  ret Return
              | Some sessionMsg =>
                if negb (msg_type sessionMsg =? "session_message")%string then
                  emit (process_error "Expected session_message") ;;
                  ret Return
                else
                  let prompt := parseContent sessionMsg in
                  if negb (Js.truthy (Some prompt)) then
                    emit (process_error "Empty prompt") ;; ret Return
                  else run_query prompt (sessionIdToResume startMsg)
              end
            else
              emit (process_error "No session_message received") ;; ret Return
          | None =>
              emit (process_error "No session_message received") ;; ret Return
          end
      end
    else emit (process_error "No input received") ;; ret Return
  | None => emit (process_error "No input received") ;; ret Return
  end.

(** The [catch] block. *)
Definition main_catch (c : completion) : M unit :=
  match c with
  | Throw errorMessage =>
      emit (process_error errorMessage) ;;
      flushVolume ;;
      callCallback error None (Some errorMessage)
  | _ => ret tt
  end.

(** The [finally] block ([rl.close()] has no effect on the trace). *)
Definition main_finally : M unit := emit (frame "process_stopped").

(** [main]. *)
Definition main : M unit :=
  c <- main_try ;; main_catch c ;; main_finally.

(** Everything a run of the process does, in order. *)
Definition effects : list effect := output (main 0).

End Process.

(** The frames written to stdout, in order. *)
Fixpoint frames (es : list effect) : list AgentMessage :=
  match es with
  | Stdout msg :: rest => msg :: frames rest
  | _ :: rest => frames rest
  | [] => []
  end.

(** The callback requests sent, in order. *)
Fixpoint posts (es : list effect) : list (string * CallbackBody) :=
  match es with
  | Post url body :: rest => (url, body) :: posts rest
  | _ :: rest => posts rest
  | [] => []
  end.

Definition is_type (t : string) (msg : AgentMessage) : bool :=
  (type msg =? t)%string.

(** The engine's terminal result event, as [main] recognises it. *)
Definition is_result (m : SDKMessage) : bool :=
  sdk_has_result m && (sdk_type m =? "result")%string.

(** The frame that ends every run. *)
Definition process_stopped : AgentMessage := frame "process_stopped".

(** A [session_complete] frame whose metrics are all zero. *)
Definition zeroed_session_complete (sid : option string) : AgentMessage :=
  {| type := "session_complete"; session_id := sid; message := None;
     result := Some {| duration_ms := Some 0%Q; duration_api_ms := Some 0%Q;
                       total_cost_usd := Some 0%Q; num_turns := Some 0%Q |} |}.

(** The first line is a [process_start] frame, parsed as [startMsg]. *)
Definition start_accepted
  (JSON_parse_start : string -> option ProcessStartCommand)
  (startLine : option string) (startMsg : ProcessStartCommand) : Prop :=
  exists line,
    startLine = Some line /\ line <> "" /\
    JSON_parse_start line = Some startMsg /\
    start_type startMsg = "process_start".

(** The second line is a [session_message] frame, parsed as [sessionMsg],
    with a prompt in it. *)
Definition message_accepted
  (JSON_parse_message : string -> option SessionMessageCommand)
  (msgLine : option string) (sessionMsg : SessionMessageCommand) : Prop :=
  exists line,
    msgLine = Some line /\ line <> "" /\
    JSON_parse_message line = Some sessionMsg /\
    msg_type sessionMsg = "session_message" /\
    parseContent sessionMsg <> "".

(** A trace with the outcomes of the [sync] commands forgotten. *)
Definition forget_outcome (e : effect) : effect :=
  match e with
  | ExecSync _ => ExecSync true
  | _ => e
  end.

(** Two results of a step that differ at most in the outcomes of the
    [sync] commands. *)
Definition agree {A} (r r' : A * list effect * nat) : Prop :=
  value r = value r' /\
  map forget_outcome (output r) = map forget_outcome (output r') /\
  count r = count r'.

(** A trace in which the volume was flushed and, when there is a callback
    URL, a callback request was sent to it. *)
Definition flushed_and_notified (CALLBACK_URL : option string)
  (es : list effect) : Prop :=
  (exists b, In (ExecSync b) es) /\
  (forall url, CALLBACK_URL = Some url -> url <> "" ->
     exists body, In (Post url body) es).

(** *** A sample run

    A parser that accepts the line "start" as a [process_start] frame and
    the line "message" as a [session_message] frame with the text
    "hello"; an engine that reports the session id "abc" and then,
    for [demo_query], a result after three turns. *)

Definition demo_parse_start (line : string) : option ProcessStartCommand :=
  if (line =? "start")%string
  then Some {| start_type := "process_start"; start_session_id := None |}
  else None.

Definition demo_parse_message (line : string)
  : option SessionMessageCommand :=
  if (line =? "message")%string
  then Some {| msg_type := "session_message"; msg_text := Some "hello";
               msg_content := None |}
  else None.

Definition demo_start : ProcessStartCommand :=
  {| start_type := "process_start"; start_session_id := None |}.

Definition demo_message : SessionMessageCommand :=
  {| msg_type := "session_message"; msg_text := Some "hello";
     msg_content := None |}.

Definition demo_init : SDKMessage :=
  {| sdk_type := "system"; sdk_subtype := Some "init";
     sdk_session_id := Some "abc"; sdk_has_result := false;
     sdk_duration_ms := None; sdk_duration_api_ms := None;
     sdk_total_cost_usd := None; sdk_num_turns := None |}.

Definition demo_result : SDKMessage :=
  {| sdk_type := "result"; sdk_subtype := Some "success";
     sdk_session_id := Some "abc"; sdk_has_result := true;
     sdk_duration_ms := Some 1200%Q; sdk_duration_api_ms := Some 900%Q;
     sdk_total_cost_usd := Some (1 # 50)%Q; sdk_num_turns := Some 3%Q |}.

Definition demo_query (prompt dir : string) (resume : option string)
  : Query :=
  {| yields := [demo_init; demo_result]; throws := None |}.

Definition demo_query_without_result (prompt dir : string)
  (resume : option string) : Query :=
  {| yields := [demo_init]; throws := None |}.

(** The sample run with the given engine, a callback URL, and every
    [sync] command failing. *)
Definition demo_effects (q : string -> string -> option string -> Query)
  : list effect :=
  effects None "/workspace/data" None (Some "http://web/status")
          demo_parse_start demo_parse_message q (fun _ => false)
          (Some "start") (Some "message").

(** Every callback request in the trace comes directly after a [sync]
    command that has returned or thrown; [flushed] tells whether the
    effect just before the list is such a command. *)
Fixpoint flush_precedes_post (flushed : bool) (es : list effect) : bool :=
  match es with
  | Post _ _ :: rest => flushed && flush_precedes_post false rest
  | ExecSync _ :: rest => flush_precedes_post true rest
  | Stdout _ :: rest => flush_precedes_post false rest
  | [] => true
  end.

(** *** Reading a trace *)

(** The engine's initialization event, as [main] recognises it. *)
Definition is_init (m : SDKMessage) : bool :=
  (sdk_type m =? "system")%string &&
  match sdk_subtype m with
  | Some st => (st =? "init")%string
  | None => false
  end.

Definition is_sync (e : effect) : bool :=
  match e with ExecSync _ => true | _ => false end.

Definition process_ready (sid : option string) : AgentMessage :=
  {| type := "process_ready"; session_id := sid; message := None;
     result := None |}.

Definition session_started (sid : option string) : AgentMessage :=
  {| type := "session_started"; session_id := sid; message := None;
     result := None |}.


(** [1] for [true], [0] for [false]. *)
Definition one_if (b : bool) : nat := if b then 1 else 0.

End Agent.

(** ** The polling page *)

Module Home.

Import Content.

(** Modelled from the spec: [SessionEntry] of [lib/types] (the spec's
    ConfirmedMessage), which is not part of the sources at hand: an entry
    of the durable log with its role (the entry's [type]: user, assistant
    or system, the field [hasPendingMatch] reads), its unique id and the
    content of its message, a string or an ordered list of segments. *)
Record SessionEntry := {
  entry_type : string;
  entry_uuid : string;
  entry_content : MessageContent
}.

(** Modelled from the spec: [ConversationResponse] of [lib/types], what the
    fetch endpoint returns: status, ordered messages, optional error
    text. *)
Record ConversationResponse := {
  data_status : string;
  data_messages : list SessionEntry;
  data_errorMessage : option string
}.

(** [interface PendingMessage]. *)
Record PendingMessage := {
  id : string;
  content : string;
  timestamp : string
}.

(** The [useState] values of [Home] the polling code reads or writes. *)
Record State := {
  conversationId : option string;
  status : string;
  serverMessages : list SessionEntry;
  pendingMessages : list PendingMessage;
  errorMessage : option string;
  isSubmitting : bool;
  refreshTrigger : nat
}.

(** The [useRef] values. *)
Record Refs := {
  postCompletionPollsRef : nat;
  isPollingRef : bool;
  prevPollDataRef : string * nat   (** [{ status, messagesLength }] *)
}.

(** What the browser and React hold for the component: whether the
    interval of the polling effect is installed, the dependencies the two
    effects last ran with, the refresh timeouts not yet fired, the poll
    requests sent and not yet answered, and the poll requests sent in
    all. *)
Record Runtime := {
  pollInterval : bool;
  pollDeps : option string * string * nat;
  refreshTimers : nat;
  timerDeps : string;
  in_flight : nat;
  fetches : nat
}.

Record Home := {
  state : State;
  refs : Refs;
  runtime : Runtime
}.

(** The outcome of one poll request. *)
Inductive response :=
| Ok (data : ConversationResponse)   (** [response.ok], body parsed *)
| NotOk                              (** [response.ok] is false *)
| Rejected.                          (** [fetch] or [json()] throws *)

(** What can happen to the mounted component. *)
Inductive event :=
| Tick                               (** the interval callback is called *)
| Response (r : response)            (** the poll request is answered *)
| TimerFire                          (** a refresh timeout fires *)
| Submit (text pendingId now : string)   (** [handleSubmit] up to its fetch *)
| SubmitOk (newConversationId : string)  (** ... its request succeeded *)
| SubmitFailed (pendingId message : string).  (** ... its request failed *)

(** [hasPendingMatch]. *)
Definition hasPendingMatch (pending : PendingMessage)
  (serverMsgs : list SessionEntry) : bool :=
  Js.some
    (fun m =>
       (entry_type m =? "user")%string &&
       (getUserMessageText (entry_content m) =? content pending)%string)
    serverMsgs.

Definition isDone (st : string) : bool :=
  (st =? "completed")%string || (st =? "error")%string.

(** The body of the polling effect: [true] when it installs the interval,
    [false] when it returns early. *)
Definition polling_effect (h : Home) : bool :=
  if negb (Js.truthy (conversationId (state h))) then false
  else if isDone (status (state h)) &&
          ((List.length (pendingMessages (state h)) =? 0) ||
           (10 <=? postCompletionPollsRef (refs h)))
  then false
  else if negb (isDone (status (state h))) &&
          negb (status (state h) =? "running")%string
  then false
  else true.

(** The dependency array of the polling effect ([hasPendingMatch] is a
    stable callback and never changes). *)
Definition deps (h : Home) : option string * string * nat :=
  (conversationId (state h), status (state h),
   List.length (pendingMessages (state h))).

Definition option_eqb (a b : option string) : bool :=
  match a, b with
  | Some x, Some y => (x =? y)%string
  | None, None => true
  | _, _ => false
  end.

Definition deps_eqb (a b : option string * string * nat) : bool :=
  let '(c1, s1, n1) := a in
  let '(c2, s2, n2) := b in
  option_eqb c1 c2 && (s1 =? s2)%string && (n1 =? n2).

(** A render commits: each effect whose dependencies changed is cleaned up
    ([clearInterval], [clearTimeout]) and runs again. *)
Definition render (h : Home) : Home :=
  let rt := runtime h in
  let poll_changed := negb (deps_eqb (deps h) (pollDeps rt)) in
  let timer_changed := negb (status (state h) =? timerDeps rt)%string in
  {| state := state h;
     refs := refs h;
     runtime :=
       {| pollInterval :=
            if poll_changed then polling_effect h else pollInterval rt;
          pollDeps := if poll_changed then deps h else pollDeps rt;
          refreshTimers :=
            if timer_changed
            then (if isDone (status (state h)) then 2 else 0)
            else refreshTimers rt;
          timerDeps :=
            if timer_changed then status (state h) else timerDeps rt;
          in_flight := in_flight rt;
          fetches := fetches rt |} |}.

(** The [if (response.ok) { ... }] block of the interval callback. *)
Definition on_data (data : ConversationResponse) (h : Home) : Home :=
  let st := state h in
  let rf := refs h in
  let n := List.length (data_messages data) in
  let prev := prevPollDataRef rf in
  let changed :=
    negb (data_status data =? fst prev)%string || negb (n =? snd prev) in
  {| state :=
       {| conversationId := conversationId st;
          status := data_status data;
          serverMessages := data_messages data;
          pendingMessages :=
            if 0 <? n
            then filter (fun p => negb (hasPendingMatch p (data_messages data)))
                        (pendingMessages st)
            else pendingMessages st;
          errorMessage := Js.or_else (data_errorMessage data) None;
          isSubmitting := isSubmitting st;
          refreshTrigger :=
            if changed then refreshTrigger st + 1 else refreshTrigger st |};
     refs :=
       {| postCompletionPollsRef :=
            if isDone (data_status data)
            then postCompletionPollsRef rf + 1
            else postCompletionPollsRef rf;
          isPollingRef := isPollingRef rf;
          prevPollDataRef := (data_status data, n) |};
     runtime := runtime h |}.

(** The [finally] block of the interval callback, with the request
    leaving the network. *)
Definition on_finally (h : Home) : Home :=
  {| state := state h;
     refs :=
       {| postCompletionPollsRef := postCompletionPollsRef (refs h);
          isPollingRef := false;
          prevPollDataRef := prevPollDataRef (refs h) |};
     runtime :=
       {| pollInterval := pollInterval (runtime h);
          pollDeps := pollDeps (runtime h);
          refreshTimers := refreshTimers (runtime h);
          timerDeps := timerDeps (runtime h);
          in_flight := in_flight (runtime h) - 1;
          fetches := fetches (runtime h) |} |}.

(** The interval callback up to its [await fetch(...)]. *)
Definition on_tick (h : Home) : Home :=
  if negb (pollInterval (runtime h)) then h
  else if isPollingRef (refs h) then h
  else
    {| state := state h;
       refs :=
         {| postCompletionPollsRef := postCompletionPollsRef (refs h);
            isPollingRef := true;
            prevPollDataRef := prevPollDataRef (refs h) |};
       runtime :=
         {| pollInterval := pollInterval (runtime h);
            pollDeps := pollDeps (runtime h);
            refreshTimers := refreshTimers (runtime h);
            timerDeps := timerDeps (runtime h);
            in_flight := in_flight (runtime h) + 1;
            fetches := fetches (runtime h) + 1 |} |}.

(** The interval callback from the answer of its request on; there is
    nothing to answer when no request is out. *)
Definition on_response (r : response) (h : Home) : Home :=
  if in_flight (runtime h) =? 0 then h
  else
    render (on_finally
              match r with
              | Ok data => on_data data h
              | NotOk => h
              | Rejected => h
              end).

(** One of the two [setTimeout(() => setRefreshTrigger((r) => r + 1), _)]
    of the refresh effect fires. *)
Definition on_timer (h : Home) : Home :=
  let st := state h in
  let rt := runtime h in
  match refreshTimers rt with
  | 0 => h
  | S k =>
      {| state :=
           {| conversationId := conversationId st;
              status := status st;
              serverMessages := serverMessages st;
              pendingMessages := pendingMessages st;
              errorMessage := errorMessage st;
              isSubmitting := isSubmitting st;
              refreshTrigger := refreshTrigger st + 1 |};
         refs := refs h;
         runtime :=
           {| pollInterval := pollInterval rt;
              pollDeps := pollDeps rt;
              refreshTimers := k;
              timerDeps := timerDeps rt;
              in_flight := in_flight rt;
              fetches := fetches rt |} |}
  end.

(** [handleSubmit] up to its [await fetch("/api/conversations", ...)]. *)
Definition on_submit (text pendingId now : string) (h : Home) : Home :=
  let st := state h in
  render
    {| state :=
         {| conversationId := conversationId st;
            status := status st;
            serverMessages := serverMessages st;
            pendingMessages :=
              pendingMessages st ++
              [{| id := pendingId; content := text; timestamp := now |}];
            errorMessage := None;
            isSubmitting := true;
            refreshTrigger := refreshTrigger st |};
       refs :=
         {| postCompletionPollsRef := 0;
            isPollingRef := isPollingRef (refs h);
            prevPollDataRef := prevPollDataRef (refs h) |};
       runtime := runtime h |}.

(** [handleSubmit] after a successful request. *)
Definition on_submit_ok (newConversationId : string) (h : Home) : Home :=
  let st := state h in
  render
    {| state :=
         {| conversationId := Some newConversationId;
            status := "running";
            serverMessages := serverMessages st;
            pendingMessages := pendingMessages st;
            errorMessage := errorMessage st;
            isSubmitting := false;
            refreshTrigger := refreshTrigger st |};
       refs := refs h;
       runtime := runtime h |}.

(** [handleSubmit] after a failed request. *)
Definition on_submit_failed (pendingId message : string) (h : Home) : Home :=
  let st := state h in
  render
    {| state :=
         {| conversationId := conversationId st;
            status := status st;
            serverMessages := serverMessages st;
            pendingMessages :=
              filter (fun m => negb (id m =? pendingId)%string)
                     (pendingMessages st);
            errorMessage := Some message;
            isSubmitting := false;
            refreshTrigger := refreshTrigger st |};
       refs := refs h;
       runtime := runtime h |}.

Definition step (h : Home) (e : event) : Home :=
  match e with
  | Tick => on_tick h
  | Response r => on_response r h
  | TimerFire => on_timer h
  | Submit text pendingId now => on_submit text pendingId now h
  | SubmitOk c => on_submit_ok c h
  | SubmitFailed pendingId message => on_submit_failed pendingId message h
  end.

(** The component after its first render: both effects have run and
    returned early. *)
Definition mounted : Home :=
  {| state :=
       {| conversationId := None; status := "idle"; serverMessages := [];
          pendingMessages := []; errorMessage := None;
          isSubmitting := false; refreshTrigger := 0 |};
     refs :=
       {| postCompletionPollsRef := 0; isPollingRef := false;
          prevPollDataRef := ("", 0) |};
     runtime :=
       {| pollInterval := false; pollDeps := (None, "idle", 0);
          refreshTimers := 0; timerDeps := "idle";
          in_flight := 0; fetches := 0 |} |}.

Definition run_from (h : Home) (evs : list event) : Home :=
  fold_left step evs h.

Definition run (evs : list event) : Home := run_from mounted evs.

(** The (status, confirmed-message-count) pair of a fetched response. *)
Definition pair_of (data : ConversationResponse) : string * nat :=
  (data_status data, List.length (data_messages data)).

(** One poll that completes: a tick, then its answer. *)
Definition poll (data : ConversationResponse) : list event :=
  [Tick; Response (Ok data)].

Fixpoint polls (datas : list ConversationResponse) : list event :=
  match datas with
  | data :: rest => poll data ++ polls rest
  | [] => []
  end.

(** The busy flag tells whether a poll request is out. *)
Definition guard_consistent (h : Home) : Prop :=
  in_flight (runtime h) = if isPollingRef (refs h) then 1 else 0.

(** *** A sample conversation

    The user submits one message; the conversation is created; every poll
    then finds the session completed and the log holding one assistant
    entry, but not the user's message. *)

Definition demo_pending : PendingMessage :=
  {| id := "pending-1"; content := "Build me a site"; timestamp := "t0" |}.

Definition demo_reply : SessionEntry :=
  {| entry_type := "assistant"; entry_uuid := "u1";
     entry_content := ContentArray [text_segment "Working on it"] |}.

Definition demo_completed : ConversationResponse :=
  {| data_status := "completed"; data_messages := [demo_reply];
     data_errorMessage := None |}.

Definition demo_confirmed : ConversationResponse :=
  {| data_status := "running";
     data_messages :=
       [{| entry_type := "user"; entry_uuid := "u0";
           entry_content := ContentString "Build me a site" |}];
     data_errorMessage := None |}.

Definition demo_submitted : list event :=
  [Submit "Build me a site" "pending-1" "t0"; SubmitOk "c1"].

(** The component after [n] polls of the sample conversation, [n] at
    least one, none of them with an event in between. *)
Definition demo_after (n : nat) : Home :=
  {| state :=
       {| conversationId := Some "c1"; status := "completed";
          serverMessages := [demo_reply]; pendingMessages := [demo_pending];
          errorMessage := None; isSubmitting := false;
          refreshTrigger := 1 |};
     refs :=
       {| postCompletionPollsRef := n; isPollingRef := false;
          prevPollDataRef := ("completed", 1) |};
     runtime :=
       {| pollInterval := true; pollDeps := (Some "c1", "completed", 1);
          refreshTimers := 2; timerDeps := "completed";
          in_flight := 0; fetches := n |} |}.

(** C6 as the specification states it: over any stretch of the
    component's life in which every completed poll fetches the pair the
    snapshot already holds, the refresh signal does not fire. *)
Definition no_refresh_while_unchanged : Prop :=
  forall (evs evs' : list event),
    (forall data, In (Response (Ok data)) evs' ->
       pair_of data = prevPollDataRef (refs (run evs))) ->
    refreshTrigger (state (run (evs ++ evs')))
    = refreshTrigger (state (run evs)).

(** *** What the effects keep true *)

(** The state of the two effects agrees with the values they depend on:
    the interval is installed while the session runs under a conversation
    id, and otherwise only while a finished session still has pending
    messages; the refresh timeouts are set only for a finished session, at
    most two at a time. *)
Record lifecycle (h : Home) : Prop := {
  lc_poll_deps : pollDeps (runtime h) = deps h;
  lc_timer_deps : timerDeps (runtime h) = status (state h);
  lc_running :
    status (state h) = "running"%string ->
    pollInterval (runtime h) = Js.truthy (conversationId (state h));
  lc_idle :
    isDone (status (state h)) = false ->
    status (state h) <> "running"%string ->
    pollInterval (runtime h) = false;
  lc_done :
    isDone (status (state h)) = true ->
    pollInterval (runtime h) = true ->
    pendingMessages (state h) <> [];
  lc_no_conversation :
    Js.truthy (conversationId (state h)) = false ->
    pollInterval (runtime h) = false;
  lc_timers : refreshTimers (runtime h) <= 2;
  lc_timers_done :
    refreshTimers (runtime h) <> 0 -> isDone (status (state h)) = true
}.

(** The same scheduling state: what [render] reads of the runtime. *)
Definition same_schedule (h h' : Home) : Prop :=
  pollInterval (runtime h') = pollInterval (runtime h) /\
  pollDeps (runtime h') = pollDeps (runtime h) /\
  refreshTimers (runtime h') = refreshTimers (runtime h) /\
  timerDeps (runtime h') = timerDeps (runtime h).

End Home.

(** ** The session log parser ([lib/session-parser.ts]) *)

Module SessionParser.

Import Content Home.

(** [String.prototype.split("\n")]: the pieces between the newlines; a
    string without newline is one piece, also the empty string. *)
Fixpoint split_lines (s : string) : list string :=
  match s with
  | EmptyString => [""%string]
  | String c rest =>
      if Ascii.eqb c (ascii_of_nat 10) then ""%string :: split_lines rest
      else
        match split_lines rest with
        | first :: others => String c first :: others
        | [] => [String c ""]
        end
  end.

(** [ARTIFACT_TEXTS]. *)
Definition ARTIFACT_TEXTS : list string := ["No response requested."%string].

(** [ARTIFACT_TEXTS.has]. *)
Definition ARTIFACT_TEXTS_has (text : string) : bool :=
  existsb (String.eqb text) ARTIFACT_TEXTS.

(** [getSessionFilePath]. *)
Definition getSessionFilePath (sessionId : string) : string :=
  (".claude/projects/-workspace-data/" ++ sessionId ++ ".jsonl")%string.

Section Parser.

(** [String.prototype.trim]. *)
Variable trim : string -> string.

(** [JSON.parse] read as a log entry; [None] when it throws, or when its
    value is no object (reading [type] of it then throws or gives
    [undefined]): the parser skips the line in each of these cases. *)
Variable JSON_parse : string -> option SessionEntry.

(** [isInternalArtifact] on the content of an assistant entry; [None]
    when it throws a [TypeError]: on [.some] of a non-empty string, or on
    [.trim()] of a text block that has no text. *)
Definition isInternalArtifact (entry : SessionEntry) : option bool :=
  match entry_content entry with
  | ContentString s =>
      if Js.truthy (Some s) then None else Some true
  | ContentArray content =>
      if List.length content =? 0 then Some true
      else if Js.some (fun b => (block_type b =? "tool_use")%string) content
      then Some false
      else
        let textBlocks :=
          filter (fun b => (block_type b =? "text")%string) content in
        match textBlocks with
        | [b] =>
            match block_text b with
            | Some text => Some (ARTIFACT_TEXTS_has (trim text))
            | None => None
            end
        | _ => Some false
        end
  end.

(** The body of the [try] block for a parsed entry: [Some entry] when the
    entry is pushed, [None] when it is passed over or the block throws. *)
Definition accept (entry : SessionEntry) : option SessionEntry :=
  if (entry_type entry =? "user")%string
     || (entry_type entry =? "assistant")%string
     || (entry_type entry =? "system")%string
  then
    if (entry_type entry =? "assistant")%string then
      match isInternalArtifact entry with
      | Some false => Some entry
      | Some true => None
      | None => None
      end
    else Some entry
  else None.

(** The body of the [for] loop. *)
Definition parse_line (entries : list SessionEntry) (line : string)
  : list SessionEntry :=
  let trimmed := trim line in
  if negb (Js.truthy (Some trimmed)) then entries
  else
    match JSON_parse trimmed with
    | Some entry =>
        match accept entry with
        | Some kept => entries ++ [kept]
        | None => entries
        end
    | None => entries
    end.

(** [parseSessionJSONL]. *)
Definition parseSessionJSONL (content : string) : list SessionEntry :=
  fold_left parse_line (split_lines content) [].

(** What one line adds to the entries. *)
Definition entry_of_line (line : string) : list SessionEntry :=
  parse_line [] line.

End Parser.

(** A string without a newline. *)
Fixpoint single_line (s : string) : bool :=
  match s with
  | EmptyString => true
  | String c rest => negb (Ascii.eqb c (ascii_of_nat 10)) && single_line rest
  end.

(** An assistant entry is an artifact, in words: it has no content, or it
    has no tool invocation and exactly one text block, whose trimmed text
    is the placeholder. *)
Definition artifact_in_words (trim : string -> string)
  (content : list ContentBlock) : Prop :=
  content = [] \/
  (Forall (fun b => block_type b <> "tool_use"%string) content /\
   exists b text,
     filter (fun b => (block_type b =? "text")%string) content = [b] /\
     block_text b = Some text /\
     trim text = "No response requested."%string).

(** *** A sample log *)

(** A [trim] for the samples: it removes leading and trailing spaces. *)
Fixpoint drop_spaces (s : string) : string :=
  match s with
  | String " " rest => drop_spaces rest
  | _ => s
  end.

Fixpoint drop_trailing_spaces (s : string) : string :=
  match s with
  | EmptyString => EmptyString
  | String c rest =>
      match drop_trailing_spaces rest with
      | EmptyString => if Ascii.eqb c " " then EmptyString else String c ""
      | kept => String c kept
      end
  end.

Definition demo_trim (s : string) : string :=
  drop_trailing_spaces (drop_spaces s).

Definition demo_user_entry : SessionEntry :=
  {| entry_type := "user"; entry_uuid := "u0";
     entry_content := ContentString "Build me a site" |}.

Definition demo_placeholder_entry : SessionEntry :=
  {| entry_type := "assistant"; entry_uuid := "u1";
     entry_content :=
       ContentArray [{| block_type := "thinking"; block_text := None |};
                     text_segment " No response requested. "] |}.

(** A [JSON.parse] for the samples, on three lines it knows by name. *)
Definition demo_JSON_parse (line : string) : option SessionEntry :=
  if (line =? "user-line")%string then Some demo_user_entry
  else if (line =? "placeholder-line")%string then Some demo_placeholder_entry
  else if (line =? "reply-line")%string then Some demo_reply
  else None.

End SessionParser.

(** ** The conversation routes
    ([app/api/conversations/route.ts] and
    [app/api/conversations/[id]/status/route.ts]) *)

Module Routes.

(** A row of the conversation table, with the columns the two routes
    read or write, as the project's notes list them (id, status,
    volumeId, sandboxId, sessionId, errorMessage); the Prisma schema
    itself is not among the sources. *)
Record Conversation := {
  id : string;
  status : string;
  volumeId : option string;
  sessionId : option string;
  sandboxId : option string;
  errorMessage : option string
}.

(** The table, by id: what [prisma.conversation.findUnique] finds.  The
    database is taken to answer; its own failures are not modelled. *)
Definition DB : Type := string -> option Conversation.

Definition empty : DB := fun _ => None.

(** [prisma.conversation.create]: the row under its id. *)
Definition put (db : DB) (c : Conversation) : DB :=
  fun key => if (key =? id c)%string then Some c else db key.

(** [prisma.conversation.update({ where: { id }, data })] on a row the
    route has just found or created. *)
Definition update (db : DB) (key : string)
  (data : Conversation -> Conversation) : DB :=
  fun key' =>
    if (key' =? key)%string
    then match db key with Some c => Some (data c) | None => None end
    else db key'.

(** What an awaited call into [lib/moru] comes back with; for an
    exception, its message ("Internal server error" when the thrown value
    is no [Error]). *)
Inductive outcome (A : Type) :=
| Returns (a : A)
| Throws (message : string).

Arguments Returns {A} a.
Arguments Throws {A} message.

(** The calls into [lib/moru] a request makes, in order. *)
Inductive call :=
| CreateVolume (conversationId : string)
| CreateAndLaunchAgent (volume : option string)
    (conversationId content : string) (session : option string)
| KillSandbox (sandbox : string).

(** [NextResponse.json(...)]: the running conversation, the plain
    success of the status route, or an error with its HTTP status. *)
Inductive reply :=
| Running (conversationId : string)
| Success
| Error (code : nat) (message : string).

(** [SendMessageRequest]. *)
Record SendMessageRequest := {
  send_conversationId : option string;
  send_content : option string
}.

(** [StatusCallbackRequest]. *)
Record StatusCallbackRequest := {
  cb_status : string;
  cb_errorMessage : option string;
  cb_sessionId : option string
}.

Definition set_volume (v : string) (c : Conversation) : Conversation :=
  {| id := id c; status := status c; volumeId := Some v;
     sessionId := sessionId c; sandboxId := sandboxId c;
     errorMessage := errorMessage c |}.

Definition set_running (sandbox : string) (c : Conversation)
  : Conversation :=
  {| id := id c; status := "running"; volumeId := volumeId c;
     sessionId := sessionId c; sandboxId := Some sandbox;
     errorMessage := errorMessage c |}.

Section Handlers.

(** [String.prototype.trim]. *)
Variable trim : string -> string.

(** The branch of [POST /api/conversations] for a follow-up message: the
    conversation with its volume and session, or the reply that ends the
    request. *)
Definition follow_up (db : DB) (conversationId : string)
  : (string * option string * option string * DB * list call)
    + (reply * DB * list call) :=
  match db conversationId with
  | None => inr (Error 404 "Conversation not found", db, [])
  | Some conversation =>
      if (status conversation =? "running")%string then
        inr (Error 409 "Conversation is already running", db, [])
      else
        inl (id conversation, volumeId conversation,
             Js.or_else (sessionId conversation) None, db, [])
  end.

(** The branch for a new conversation; [newId] is the id the database
    gives the new row, [volume] what [createVolume] comes back with. *)
Definition new_conversation (db : DB) (newId : string)
  (volume : outcome string)
  : (string * option string * option string * DB * list call)
    + (reply * DB * list call) :=
  let created :=
    put db {| id := newId; status := "idle"; volumeId := None;
              sessionId := None; sandboxId := None;
              errorMessage := None |} in
  match volume with
  | Throws message =>
      inr (Error 500 message, created, [CreateVolume newId])
  | Returns v =>
      inl (newId, Some v, None, update created newId (set_volume v),
           [CreateVolume newId])
  end.

(** [POST /api/conversations]; [sandbox] is what [createAndLaunchAgent]
    comes back with when it is called. *)
Definition send (newId : string) (volume sandbox : outcome string)
  (db : DB) (body : SendMessageRequest) : reply * DB * list call :=
  match send_content body with
  | None => (Error 400 "Message content is required", db, [])
  | Some content =>
    if negb (Js.truthy (Some (trim content))) then
      (Error 400 "Message content is required", db, [])
    else
      match
        match send_conversationId body with
        | Some conversationId =>
            if Js.truthy (send_conversationId body)
            then follow_up db conversationId
            else new_conversation db newId volume
        | None => new_conversation db newId volume
        end
      with
      | inr ended => ended
      | inl (conversationId, volumeId, sessionId, db', calls) =>
          let calls' :=
            calls ++ [CreateAndLaunchAgent volumeId conversationId content
                                           sessionId] in
          match sandbox with
          | Throws message => (Error 500 message, db', calls')
          | Returns sandboxId =>
              (Running conversationId,
               update db' conversationId (set_running sandboxId), calls')
          end
      end
  end.

(** [POST /api/conversations/[id]/status]; [kill] is what [killSandbox]
    comes back with when it is called. *)
Definition report (kill : outcome unit) (db : DB) (conversationId : string)
  (body : StatusCallbackRequest) : reply * DB * list call :=
  match db conversationId with
  | None => (Error 404 "Conversation not found", db, [])
  | Some conversation =>
      let db' :=
        update db conversationId
          (fun c =>
             {| id := id c; status := cb_status body; volumeId := volumeId c;
                sessionId :=
                  Js.or_else (cb_sessionId body) (sessionId conversation);
                sandboxId := None;
                errorMessage := Js.or_else (cb_errorMessage body) None |}) in
      match sandboxId conversation with
      | Some sandbox =>
          if Js.truthy (sandboxId conversation) then
            match kill with
            | Returns _ => (Success, db', [KillSandbox sandbox])
            | Throws message => (Error 500 message, db', [KillSandbox sandbox])
            end
          else (Success, db', [])
      | None => (Success, db', [])
      end
  end.

(** A request to one of the two routes, with what its calls into
    [lib/moru] come back with. *)
Inductive request :=
| Send (newId : string) (volume sandbox : outcome string)
       (body : SendMessageRequest)
| Report (kill : outcome unit) (conversationId : string)
         (body : StatusCallbackRequest).

Definition handle (db : DB) (r : request) : reply * DB * list call :=
  match r with
  | Send newId volume sandbox body => send newId volume sandbox db body
  | Report kill conversationId body => report kill db conversationId body
  end.

(** The table after a request. *)
Definition after (db : DB) (r : request) : DB := snd (fst (handle db r)).

(** The table after a sequence of requests, from the empty table. *)
Definition serve (rs : list request) : DB := fold_left after rs empty.

End Handlers.

(** Every row is stored under its own id and records a sandbox only while
    its status is "running". *)
Definition consistent (db : DB) : Prop :=
  forall key c,
    db key = Some c ->
    id c = key /\ (sandboxId c <> None -> status c = "running"%string).

Definition is_launch (c : call) : bool :=
  match c with CreateAndLaunchAgent _ _ _ _ => true | _ => false end.

(** *** A sample conversation *)

(** The first message of a conversation; the database names the row "c1",
    the volume is "v1", the sandbox "s1". *)
Definition demo_first : request :=
  Send "c1" (Returns "v1"%string) (Returns "s1"%string)
       {| send_conversationId := None;
          send_content := Some "Build me a site"%string |}.

(** The agent reports the session "abc" completed. *)
Definition demo_report : request :=
  Report (Returns tt) "c1"
         {| cb_status := "completed"; cb_errorMessage := None;
            cb_sessionId := Some "abc"%string |}.

(** A second message to the same conversation. *)
Definition demo_second : SendMessageRequest :=
  {| send_conversationId := Some "c1"%string;
     send_content := Some "Add a contact page"%string |}.

End Routes.

(** * Properties *)

(** ** JavaScript idioms *)

Module JsFacts.

Import Js.

Lemma truthy_some s : truthy (Some s) = true <-> s <> "".
Proof.
  unfold truthy. rewrite negb_true_iff. split.
  - intros H E. subst s. discriminate.
  - intro H. apply String.eqb_neq. exact H.
Qed.

Lemma truthy_false v : truthy v = false <-> v = None \/ v = Some "".
Proof.
  destruct v as [s|]; simpl.
  - rewrite negb_false_iff, String.eqb_eq. split.
    + intros ->. now right.
    + intros [H|H]; [discriminate | now inversion H].
  - split; [now left | reflexivity].
Qed.

End JsFacts.

(** ** Text extraction *)

Module ContentFacts.

Import Content.

Lemma filter_map_kept bs :
  map text_of (filter is_text_block bs) = kept_texts bs.
Proof.
  induction bs as [|[ty tx] rest IH]; [reflexivity|].
  simpl. unfold is_text_block at 1. simpl.
  destruct tx as [t|]; destruct (ty =? "text")%string; simpl;
    try exact IH.
  destruct (t =? "")%string; simpl; [exact IH | now rewrite IH].
Qed.

Lemma filter_twice bs :
  filter is_text_block (filter is_text_block bs) = filter is_text_block bs.
Proof.
  induction bs as [|b rest IH]; [reflexivity|].
  simpl. destruct (is_text_block b) eqn:Eb; simpl; [rewrite Eb|]; congruence.
Qed.

Lemma join_newline ss : Js.join Js.LF ss = newline_separated ss.
Proof.
  unfold Js.join.
  induction ss as [|s [|s' rest] IH]; try reflexivity.
  change (String.concat Js.LF (s :: s' :: rest))
    with (s ++ Js.LF ++ String.concat Js.LF (s' :: rest))%string.
  now rewrite IH.
Qed.

Lemma join_text_blocks_spec bs :
  join_text_blocks bs = newline_separated (kept_texts bs).
Proof.
  unfold join_text_blocks. now rewrite filter_map_kept, join_newline.
Qed.

Lemma kept_text_segments ss :
  kept_texts (map text_segment ss)
  = filter (fun s => negb (s =? "")%string) ss.
Proof.
  induction ss as [|s rest IH]; [reflexivity|].
  simpl. destruct (s =? "")%string; simpl; now rewrite IH.
Qed.

(** C9, as the specification states it, fails: two text segments "a" and
    "b" are extracted as "a", a newline, "b", not as "ab", by the page's
    [getUserMessageText] and by the agent's [parseContent] alike. *)
Lemma extraction_is_not_concatenation :
  let bs := [text_segment "a"; text_segment "b"] in
  concat_texts bs = "ab" /\
  getUserMessageText (ContentArray bs) <> concat_texts bs /\
  parseContent {| msg_type := "session_message"; msg_text := None;
                  msg_content := Some bs |} <> concat_texts bs.
Proof.
  cbv zeta. repeat split; try reflexivity; vm_compute; discriminate.
Qed.

(** C9, amended: for a content list, both extraction functions return the
    texts of the segments of type "text" that have a non-empty text, in
    list order, separated by single newlines; for a list of text segments
    [s1; ...; sn] that is the non-empty [si] in order with a newline
    between neighbours, and one non-empty segment alone is extracted as
    its text. *)
Theorem extraction_joins_with_newlines :
  (forall bs,
     getUserMessageText (ContentArray bs) = newline_separated (kept_texts bs)
     /\ (forall ty,
           parseContent {| msg_type := ty; msg_text := None;
                           msg_content := Some bs |}
           = newline_separated (kept_texts bs)))
  /\ (forall ss,
        getUserMessageText (ContentArray (map text_segment ss))
        = newline_separated (filter (fun s => negb (s =? "")%string) ss))
  /\ (forall s, getUserMessageText (ContentArray [text_segment s]) = s).
Proof.
  split; [|split].
  - intro bs. split; [|intro ty]; simpl.
    + apply join_text_blocks_spec.
    + unfold parseContent. simpl. apply join_text_blocks_spec.
  - intro ss. simpl. now rewrite join_text_blocks_spec, kept_text_segments.
  - intro s. change (join_text_blocks (map text_segment [s]) = s).
    rewrite join_text_blocks_spec, kept_text_segments.
    simpl. destruct (s =? "")%string eqn:E; simpl; [|reflexivity].
    apply String.eqb_eq in E. now subst.
Qed.

(** C10: on a session_message, a non-empty [text] is returned as it is,
    whatever [content] holds; with [text] absent or empty, extraction
    falls back on [content], keeping only segments of type "text" with a
    non-empty text; with [content] absent too, it returns the empty
    string. *)
Theorem parseContent_prefers_text (msg : SessionMessageCommand) :
  (forall t, msg_text msg = Some t -> t <> "" -> parseContent msg = t)
  /\ (msg_text msg = None \/ msg_text msg = Some "" ->
      forall bs, msg_content msg = Some bs ->
        parseContent msg = newline_separated (kept_texts bs)
        /\ parseContent msg
           = parseContent {| msg_type := msg_type msg; msg_text := msg_text msg;
                             msg_content := Some (filter is_text_block bs) |})
  /\ (msg_text msg = None \/ msg_text msg = Some "" ->
      msg_content msg = None -> parseContent msg = "").
Proof.
  unfold parseContent. split; [|split].
  - intros t Et Hne. rewrite Et.
    apply JsFacts.truthy_some in Hne. now rewrite Hne.
  - intros Hf bs Ec. apply JsFacts.truthy_false in Hf.
    simpl. rewrite Hf, Ec. split; [apply join_text_blocks_spec|].
    unfold join_text_blocks. now rewrite filter_twice.
  - intros Hf Ec. apply JsFacts.truthy_false in Hf. now rewrite Hf, Ec.
Qed.

(** C10 at a frame that carries both a text and a content list. *)
Lemma parseContent_prefers_text_witness :
  parseContent {| msg_type := "session_message"; msg_text := Some "hello";
                  msg_content := Some [text_segment "ignored"] |} = "hello".
Proof.
  apply (proj1 (parseContent_prefers_text
                  {| msg_type := "session_message"; msg_text := Some "hello";
                     msg_content := Some [text_segment "ignored"] |})).
  - reflexivity.
  - discriminate.
Defined.

End ContentFacts.

(** ** The stdin line reader *)

Module LineReaderFacts.

Import LineReader.

Lemma run_snoc evs e : run (evs ++ [e]) = step (run evs) e.
Proof. unfold run. now rewrite fold_left_app. Qed.

Lemma arrived_app evs evs' : arrived (evs ++ evs') = arrived evs ++ arrived evs'.
Proof.
  induction evs as [|[l| |] rest IH]; simpl; auto. now rewrite IH.
Qed.

Lemma delivered_app ss ss' :
  delivered (ss ++ ss') = delivered ss ++ delivered ss'.
Proof.
  induction ss as [|[c [l|]] rest IH]; simpl; auto. now rewrite IH.
Qed.

Lemma resolve_all_null_calls rs : map fst (resolve_all_null rs) = rs.
Proof. induction rs; simpl; congruence. Qed.

Lemma resolve_all_null_delivered rs : delivered (resolve_all_null rs) = [].
Proof. induction rs; simpl; auto. Qed.

Lemma resolve_all_null_in c v rs :
  In (c, v) (resolve_all_null rs) -> v = None /\ In c rs.
Proof.
  induction rs as [|r rest IH]; simpl; [tauto|].
  intros [H|H]; [inversion H; auto | destruct (IH H); auto].
Qed.

Lemma start_invariant : invariant [] start.
Proof. split; simpl; auto. Qed.

#[local] Arguments seq : simpl never.

Ltac tidy :=
  rewrite ?map_app, ?delivered_app, ?arrived_app,
    ?resolve_all_null_calls, ?resolve_all_null_delivered, ?seq_S;
  simpl; rewrite ?app_nil_r in *; rewrite <- ?app_assoc; simpl.

Lemma step_invariant evs s e :
  invariant evs s -> invariant (evs ++ [e]) (step s e).
Proof.
  destruct s as [[ls rs cl] n ss]. intros [Hi Hc Hn Hl]. simpl in *.
  destruct e as [l| |]; unfold step, react; simpl.
  - (* a line arrives *)
    unfold on_line; simpl.
    destruct rs as [|c rest]; constructor; simpl; tidy; auto.
    + now rewrite app_assoc, Hl.
    + destruct Hi as [Hi|Hi]; [now left | discriminate].
    + intro H. specialize (Hc H). discriminate.
    + destruct Hi as [-> |Hi]; [|discriminate].
      tidy. now rewrite Hl.
  - (* the stream closes *)
    constructor; simpl; tidy; auto.
  - (* a line is asked for *)
    unfold readLine; simpl.
    destruct ls as [|l rest].
    + destruct cl; constructor; simpl; tidy; auto.
      * assert (rs = []) by auto; subst rs.
        rewrite app_nil_r in Hn. f_equal. exact Hn.
      * discriminate.
      * rewrite app_assoc. f_equal. exact Hn.
    + destruct Hi as [Hi| ->]; [discriminate|].
      constructor; simpl; tidy; auto.
      f_equal. exact Hn.
Qed.

Lemma run_invariant evs : invariant evs (run evs).
Proof.
  induction evs as [|e evs IH] using rev_ind.
  - exact start_invariant.
  - rewrite run_snoc. now apply step_invariant.
Qed.

(** C1: whatever the order of line arrivals, stream closure and
    [readLine] calls, the lines handed to readers followed by the lines
    still buffered are the arrived lines in arrival order; promises are
    settled in the order of their calls; a [readLine] finds a buffered line
    or the closed stream at once; and a promise is settled with [null] only
    by an event after which the stream is closed and no line is buffered. *)
Theorem readLine_fifo (evs : list event) :
  let s := run evs in
  delivered (settled s) ++ lines (reader s) = arrived evs
  /\ map fst (settled s) ++ resolvers (reader s) = seq 0 (calls s)
  /\ (forall line rest, lines (reader s) = line :: rest ->
        snd (react ReadLine s) = [(calls s, Some line)])
  /\ (closed (reader s) = true -> lines (reader s) = [] ->
        snd (react ReadLine s) = [(calls s, None)])
  /\ (forall e call, In (call, None) (snd (react e s)) ->
        closed (reader (step s e)) = true /\ lines (reader (step s e)) = []).
Proof.
  intro s. destruct (run_invariant evs) as [Hi Hc Hn Hl]. fold s in Hi, Hc, Hn, Hl.
  split; [exact Hl|]. split; [exact Hn|]. split; [|split].
  - intros line rest E. simpl. unfold readLine. now rewrite E.
  - intros Ecl E. simpl. unfold readLine. now rewrite E, Ecl.
  - intros e call Hin. destruct e as [l| |]; simpl in *.
    + unfold on_line in *. destruct (resolvers (reader s)); simpl in *.
      * contradiction.
      * destruct Hin as [H|[]]. discriminate.
    + split; [reflexivity|].
      destruct (resolvers (reader s)) as [|c rest] eqn:Er; [contradiction|].
      destruct Hi as [Hi|Hi]; [exact Hi | discriminate].
    + unfold readLine in *. destruct (lines (reader s)) eqn:El; simpl in *.
      * destruct (closed (reader s)) eqn:Ecl; simpl in *;
          [now rewrite El, Ecl | contradiction].
      * destruct Hin as [H|[]]. discriminate.
Qed.

(** C1 on a run where one reader waits before its line arrives, one line
    arrives before its reader, and a reader is left waiting when the
    stream closes. *)
Lemma readLine_fifo_witness :
  let evs := [ReadLine; Line "a"; Line "b"; ReadLine; ReadLine; Close] in
  settled (run evs) = [(0, Some "a"); (1, Some "b"); (2, None)]
  /\ closed (reader (run evs)) = true /\ lines (reader (run evs)) = [].
Proof.
  cbv zeta. split; [reflexivity|].
  exact (proj2 (proj2 (proj2 (proj2
           (readLine_fifo [ReadLine; Line "a"; Line "b"; ReadLine; ReadLine])))) 
           Close 2 (or_introl eq_refl)).
Defined.

(** *** The stream as [readline] drives it *)

Lemma no_line_after_close_snoc evs e :
  no_line_after_close (evs ++ [e]) = true ->
  no_line_after_close evs = true /\
  (is_line e = true -> existsb is_close evs = false).
Proof.
  induction evs as [|e' rest IH]; simpl.
  - intros _. split; [reflexivity | intros _; reflexivity].
  - destruct e' as [l| |]; simpl; intro H.
    + exact (IH H).
    + rewrite forallb_app in H. simpl in H.
      apply andb_true_iff in H as [Hrest He].
      split; [exact Hrest|]. intro Hl. rewrite Hl in He. discriminate.
    + exact (IH H).
Qed.

Lemma existsb_snoc {A} (f : A -> bool) xs x :
  existsb f (xs ++ [x]) = existsb f xs || f x.
Proof. rewrite existsb_app. simpl. now rewrite orb_false_r. Qed.

Lemma values_snoc_line (ss : list settlement) c l m :
  map snd ss = map Some (delivered ss) ++ repeat None m -> m = 0 ->
  map snd (ss ++ [(c, Some l)])
  = map Some (delivered (ss ++ [(c, Some l)])) ++ repeat None 0.
Proof.
  unfold settlement in *. intros H ->. simpl in *. rewrite app_nil_r in *.
  rewrite map_app, delivered_app, map_app, H. reflexivity.
Qed.

Lemma values_nulls (ss : list settlement) rs m :
  map snd ss = map Some (delivered ss) ++ repeat None m ->
  map snd (ss ++ resolve_all_null rs)
  = map Some (delivered (ss ++ resolve_all_null rs))
    ++ repeat None (m + List.length rs).
Proof.
  unfold settlement in *. intro H.
  rewrite map_app, delivered_app, resolve_all_null_delivered, app_nil_r, H.
  rewrite repeat_app, <- app_assoc. f_equal. f_equal.
  induction rs as [|r rest IH]; simpl; congruence.
Qed.

Lemma step_closing_invariant evs s e :
  invariant evs s -> closing_invariant evs s ->
  no_line_after_close (evs ++ [e]) = true ->
  closing_invariant (evs ++ [e]) (step s e).
Proof.
  destruct s as [[ls rs cl] n ss].
  intros [Hi Hc _ _] [Hw [m [Hv Hm]]] Hwf. simpl in *.
  apply no_line_after_close_snoc in Hwf as [_ Hline].
  constructor; simpl.
  - rewrite existsb_snoc, <- Hw.
    destruct e as [l| |]; simpl; unfold on_line, readLine; simpl;
      try destruct rs; try destruct ls; try destruct cl; simpl;
      rewrite ?orb_false_r, ?orb_true_r; reflexivity.
  - destruct e as [l| |]; simpl.
    + (* a line: the stream is open, so no null was settled *)
      assert (cl = false) as -> by (rewrite Hw; now apply Hline).
      assert (m = 0) as Hm0.
      { destruct m; [reflexivity|]. destruct Hm as [H _]; discriminate. }
      unfold on_line; simpl. destruct rs as [|c rest]; simpl.
      * exists 0. rewrite app_nil_r. subst m. split; [exact Hv | congruence].
      * exists 0. split; [now apply values_snoc_line with (m := m) | congruence].
    + exists (m + List.length rs). split; [now apply values_nulls|].
      intros Hne. split; [reflexivity|].
      destruct rs as [|c rest].
      * simpl in Hne. rewrite Nat.add_0_r in Hne. now destruct (Hm Hne).
      * destruct Hi as [Hi|Hi]; [exact Hi | discriminate].
    + unfold readLine; simpl. destruct ls as [|l rest]; simpl.
      * destruct cl; simpl.
        -- exists (m + 1). split.
           ++ apply (values_nulls ss [n] m Hv).
           ++ auto.
        -- exists m. rewrite app_nil_r. split; [exact Hv|].
           intro H. destruct (Hm H). discriminate.
      * assert (m = 0) as Hm0.
        { destruct m; [reflexivity|]. destruct Hm as [_ H]; discriminate. }
        exists 0. split; [now apply values_snoc_line with (m := m) | congruence].
Qed.

Lemma run_closing_invariant evs :
  no_line_after_close evs = true -> closing_invariant evs (run evs).
Proof.
  induction evs as [|e evs IH] using rev_ind; intro Hwf.
  - constructor; [reflexivity|]. exists 0. split; [reflexivity | congruence].
  - rewrite run_snoc. apply step_closing_invariant; auto.
    + apply run_invariant.
    + apply IH. now apply no_line_after_close_snoc in Hwf.
Qed.

Lemma nth_error_of_prefix {A} (P D L : list A) :
  map (nth_error (P ++ D ++ L)) (seq (List.length P) (List.length D))
  = map Some D.
Proof.
  revert P. induction D as [|d D IH]; intro P; [reflexivity|].
  cbn [List.length]. rewrite <- cons_seq. cbn [map]. f_equal.
  - rewrite nth_error_app2, Nat.sub_diag by lia. reflexivity.
  - specialize (IH (P ++ [d])).
    rewrite <- app_assoc, length_app in IH. simpl in IH.
    rewrite Nat.add_1_r in IH. exact IH.
Qed.

Lemma nth_error_beyond {A} (D : list A) k m :
  map (nth_error D) (seq (List.length D + k) m) = repeat None m.
Proof.
  revert k. induction m as [|m IH]; intro k; [reflexivity|].
  rewrite <- cons_seq. cbn [map repeat]. f_equal.
  - apply nth_error_None. lia.
  - specialize (IH (S k)). now rewrite Nat.add_succ_r in IH.
Qed.

Lemma zip_of_maps {A B} (f : A -> B) (l : list (A * B)) (a : list A) :
  map fst l = a -> map snd l = map f a -> l = map (fun k => (k, f k)) a.
Proof.
  revert a. induction l as [|[x y] l IH]; intros a Hf Hs; subst a.
  - reflexivity.
  - simpl in *. inversion Hs; subst. f_equal. now apply IH.
Qed.

(** Once the stream has closed, every [readLine] call has returned: the
    call with index [k] got the [k]-th line that arrived, or [null] when
    fewer than [k + 1] lines arrived, whatever the order in which lines,
    calls and the close came. *)
Theorem readLine_by_position_once_closed (evs : list event) :
  no_line_after_close evs = true ->
  closed (reader (run evs)) = true ->
  settled (run evs)
  = map (fun k => (k, nth_error (arrived evs) k)) (seq 0 (calls (run evs))).
Proof.
  intros Hwf Hcl.
  destruct (run_invariant evs) as [Hi Hc Hn Hl].
  destruct (run_closing_invariant evs Hwf) as [_ [m [Hv Hm]]].
  rewrite (Hc Hcl), app_nil_r in Hn.
  apply zip_of_maps; [exact Hn|].
  unfold settlement in *. rewrite Hv.
  assert (calls (run evs) = List.length (delivered (settled (run evs))) + m)
    as ->.
  { rewrite <- (length_seq (calls (run evs)) 0), <- Hn, length_map,
      <- (length_map snd), Hv.
    now rewrite length_app, length_map, repeat_length. }
  rewrite seq_app, map_app, <- Hl. simpl. f_equal.
  - symmetry.
    apply (nth_error_of_prefix [] (delivered (settled (run evs)))
             (lines (reader (run evs)))).
  - destruct m; [reflexivity|].
    destruct Hm as [_ ->]; [congruence|]. rewrite app_nil_r.
    pose proof (nth_error_beyond (delivered (settled (run evs))) 0 (S m)) as H.
    rewrite Nat.add_0_r in H. now rewrite H.
Qed.

(** On a stream of two lines where the first reader waits and the second
    finds its line buffered. *)
Lemma readLine_by_position_once_closed_witness :
  settled (run [ReadLine; Line "a"; Line "b"; ReadLine; ReadLine; Close])
  = [(0, Some "a"); (1, Some "b"); (2, None)].
Proof.
  exact (readLine_by_position_once_closed
           [ReadLine; Line "a"; Line "b"; ReadLine; ReadLine; Close]
           eq_refl eq_refl).
Defined.

Lemma step_stays_closed s e :
  closed (reader s) = true -> closed (reader (step s e)) = true.
Proof.
  intro H. destruct e as [l| |]; simpl; unfold on_line, readLine.
  - destruct (resolvers (reader s)); exact H.
  - reflexivity.
  - destruct (lines (reader s)); [rewrite H|]; exact H.
Qed.

Lemma run_stays_closed evs evs' :
  closed (reader (run evs)) = true ->
  closed (reader (run (evs ++ evs'))) = true.
Proof.
  intro H. induction evs' as [|e evs' IH] using rev_ind.
  - now rewrite app_nil_r.
  - rewrite app_assoc, run_snoc. now apply step_stays_closed.
Qed.

(** No promise is settled twice or settled while it still waits; every
    call is either settled or waiting; and from the close on no reader
    ever waits again. *)
Theorem settled_once_and_never_waiting_after_close (evs : list event) :
  let s := run evs in
  NoDup (map fst (settled s))
  /\ (forall c, In c (resolvers (reader s)) -> ~ In c (map fst (settled s)))
  /\ List.length (settled s) + List.length (resolvers (reader s)) = calls s
  /\ (closed (reader s) = true ->
      forall evs', resolvers (reader (run (evs ++ evs'))) = []).
Proof.
  intro s. destruct (run_invariant evs) as [Hi Hc Hn Hl]. fold s in Hn.
  pose proof (seq_NoDup (calls s) 0) as Hnd. rewrite <- Hn in Hnd.
  split; [|split; [|split]].
  - now apply NoDup_app_remove_r in Hnd.
  - intros c Hw Hs. revert Hs Hw.
    generalize (map fst (settled s)) (resolvers (reader s)) Hnd.
    intros a b Hab Ha Hb.
    induction a as [|x a IH]; [contradiction|].
    simpl in Hab. inversion Hab as [|? ? Hx Hrest]; subst.
    destruct Ha as [->|Ha]; [|auto].
    apply Hx. apply in_or_app. now right.
  - rewrite <- (length_seq (calls s) 0), <- Hn, length_app, length_map.
    reflexivity.
  - intros Hcl evs'.
    destruct (run_invariant (evs ++ evs')) as [_ Hc' _ _].
    apply Hc'. now apply run_stays_closed.
Qed.

(** When the stream closes under a waiting reader. *)
Lemma settled_once_and_never_waiting_after_close_witness :
  resolvers (reader (run ([ReadLine; Close] ++ [ReadLine; ReadLine]))) = [].
Proof.
  exact (proj2 (proj2 (proj2
           (settled_once_and_never_waiting_after_close [ReadLine; Close])))
           eq_refl [ReadLine; ReadLine]).
Defined.

End LineReaderFacts.

(** ** The agent process *)

Module AgentFacts.

Import Content Agent.

Lemma bind_output {A B} (c : M A) (k : A -> M B) n :
  output (bind c k n)
  = output (c n) ++ output (k (value (c n)) (count (c n))).
Proof.
  unfold bind, output, value, count.
  destruct (c n) as [[a es] n']; simpl.
  now destruct (k a n') as [[b es'] n''].
Qed.

Lemma bind_value {A B} (c : M A) (k : A -> M B) n :
  value (bind c k n) = value (k (value (c n)) (count (c n))).
Proof.
  unfold bind, output, value, count.
  destruct (c n) as [[a es] n']; simpl.
  now destruct (k a n') as [[b es'] n''].
Qed.

Lemma bind_count {A B} (c : M A) (k : A -> M B) n :
  count (bind c k n) = count (k (value (c n)) (count (c n))).
Proof.
  unfold bind, output, value, count.
  destruct (c n) as [[a es] n']; simpl.
  now destruct (k a n') as [[b es'] n''].
Qed.

Lemma frames_app es es' : frames (es ++ es') = frames es ++ frames es'.
Proof.
  induction es as [|[m|b|u body] rest IH]; simpl; auto. now rewrite IH.
Qed.

Lemma posts_app es es' : posts (es ++ es') = posts es ++ posts es'.
Proof.
  induction es as [|[m|b|u body] rest IH]; simpl; auto. now rewrite IH.
Qed.

Lemma frames_stdout msg es : frames (Stdout msg :: es) = msg :: frames es.
Proof. reflexivity. Qed.

Lemma frames_sync b es : frames (ExecSync b :: es) = frames es.
Proof. reflexivity. Qed.

Lemma posts_stdout msg es : posts (Stdout msg :: es) = posts es.
Proof. reflexivity. Qed.

Lemma posts_sync b es : posts (ExecSync b :: es) = posts es.
Proof. reflexivity. Qed.

Lemma output_ret {A} (a : A) n : output (ret a n) = [].
Proof. reflexivity. Qed.

Create Rewrite HintDb trace.
#[local] Hint Rewrite frames_app posts_app frames_stdout frames_sync
  posts_stdout posts_sync @output_ret @filter_app @app_nil_r : trace.

Lemma flush_precedes_post_weaken es :
  flush_precedes_post false es = true -> flush_precedes_post true es = true.
Proof. destruct es as [|[m|b|u body] rest]; simpl; auto. discriminate. Qed.

Lemma flush_precedes_post_app es es' b :
  flush_precedes_post b es = true ->
  flush_precedes_post false es' = true ->
  flush_precedes_post b (es ++ es') = true.
Proof.
  revert b. induction es as [|[m|r|u body] rest IH]; intros b H H'; simpl in *.
  - destruct b; auto using flush_precedes_post_weaken.
  - auto.
  - auto.
  - apply andb_true_iff in H as [-> H]. simpl. auto.
Qed.

(** Unfolds a step of the process down to its tuple. *)
Ltac evaluate :=
  unfold on_message, callCallback, flushVolume, emit, perform, bind, ret,
    output, value, count in *;
  simpl in *.

Ltac branches :=
  repeat match goal with
         | |- context [if ?c then _ else _] => destruct c eqn:?; simpl
         | |- context [match ?c with Some _ => _ | None => _ end] =>
             destruct c eqn:?; simpl
         end.

Section Process.

Variable WORKSPACE_DIR : option string.
Variable cwd : string.
Variable RESUME_SESSION_ID : option string.
Variable CALLBACK_URL : option string.
Variable JSON_parse_start : string -> option ProcessStartCommand.
Variable JSON_parse_message : string -> option SessionMessageCommand.
Variable query : string -> string -> option string -> Query.
Variable startLine msgLine : option string.

(** The process with everything but the outcomes of [sync] fixed. *)
#[local] Abbreviation effects_with sync_returns :=
  (effects WORKSPACE_DIR cwd RESUME_SESSION_ID CALLBACK_URL
           JSON_parse_start JSON_parse_message query sync_returns
           startLine msgLine).

#[local] Abbreviation main_try_with sync_returns :=
  (main_try WORKSPACE_DIR cwd RESUME_SESSION_ID CALLBACK_URL
            JSON_parse_start JSON_parse_message query sync_returns
            startLine msgLine).

#[local] Abbreviation run_query_with sync_returns :=
  (run_query WORKSPACE_DIR cwd CALLBACK_URL query sync_returns).

(** *** What holds of every piece of the trace *)

Section Closure.

Variable sync_returns : nat -> bool.

(** A property of traces that holds of the empty trace, of every frame
    but [process_stopped], of a flush followed by a callback, and of two
    traces put together when it holds of both. *)
Variable P : list effect -> Prop.
Hypothesis P_nil : P [].
Hypothesis P_app : forall es es', P es -> P es' -> P (es ++ es').
Hypothesis P_frame :
  forall msg, is_type "process_stopped" msg = false -> P [Stdout msg].
Hypothesis P_notify :
  forall b st sid err n,
    P (ExecSync b :: output (callCallback CALLBACK_URL st sid err n)).

Lemma on_message_closed m loc n :
  P (output (on_message CALLBACK_URL sync_returns m loc n)).
Proof.
  destruct loc as [sid got].
  pose proof (P_notify (sync_returns n) completed (sdk_session_id m) None 0)
    as Hinit.
  pose proof (P_notify (sync_returns n) completed sid None 0) as Hkeep.
  evaluate.
  destruct ((sdk_type m =? "system")%string &&
            match sdk_subtype m with
            | Some st => (st =? "init")%string
            | None => false
            end);
    destruct (sdk_has_result m && (sdk_type m =? "result")%string); simpl;
    destruct CALLBACK_URL as [url|]; simpl in *;
    try destruct (negb (url =? "")%string); simpl in *;
    repeat match goal with
      | |- P (Stdout ?x :: ?rest) =>
          apply (P_app [Stdout x] rest); [now apply P_frame|]
      end; auto.
Qed.

Lemma for_await_closed ms loc n :
  P (output (for_await CALLBACK_URL sync_returns ms loc n)).
Proof.
  revert loc n. induction ms as [|m rest IH]; intros loc n; simpl.
  - exact P_nil.
  - rewrite bind_output. apply P_app; [apply on_message_closed | apply IH].
Qed.

Lemma run_query_closed prompt resume n :
  P (output (run_query_with sync_returns prompt resume n)).
Proof.
  unfold run_query. rewrite bind_output.
  apply P_app; [apply for_await_closed|].
  destruct (throws _); [exact P_nil|].
  destruct (value _) as [sid got]. destruct got; simpl; [exact P_nil|].
  pose proof (P_notify
    (sync_returns (count (for_await CALLBACK_URL sync_returns
       (yields (query prompt (workspace WORKSPACE_DIR cwd) resume))
       (resume, false) n)))
    completed sid None 0) as H.
  evaluate.
  destruct CALLBACK_URL as [url|]; simpl in *;
    try destruct (negb (url =? "")%string); simpl in *;
    match goal with
    | |- P (Stdout ?x :: ?rest) =>
        apply (P_app [Stdout x] rest); [now apply P_frame | exact H]
    end.
Qed.

Lemma main_try_closed n : P (output (main_try_with sync_returns n)).
Proof.
  unfold main_try. branches;
    rewrite ?bind_output;
    repeat apply P_app;
    try exact P_nil;
    try (apply P_frame; reflexivity);
    apply run_query_closed.
Qed.

Lemma main_catch_closed c n :
  P (output (main_catch CALLBACK_URL sync_returns c n)).
Proof.
  destruct c as [| |e]; simpl; try exact P_nil.
  pose proof (P_notify (sync_returns n) error None (Some e) 0) as H.
  evaluate.
  destruct CALLBACK_URL as [url|]; simpl in *;
    try destruct (negb (url =? "")%string); simpl in *;
    match goal with
    | |- P (Stdout ?x :: ?rest) =>
        apply (P_app [Stdout x] rest); [now apply P_frame | exact H]
    end.
Qed.

(** A run is such a trace followed by the one frame [process_stopped]. *)
Lemma effects_closed :
  exists body,
    effects_with sync_returns = body ++ [Stdout process_stopped] /\ P body.
Proof.
  unfold effects, main.
  rewrite bind_output, bind_output.
  eexists. split.
  - rewrite app_assoc. reflexivity.
  - apply P_app; [apply main_try_closed | apply main_catch_closed].
Qed.

End Closure.

(** C8: whatever branch a run takes, its trace is some effects with no
    [process_stopped] frame among them followed by exactly the frame
    [process_stopped]: the frame is written, once, and nothing comes after
    it. *)
Theorem process_stopped_once_and_last (sync_returns : nat -> bool) :
  let es := effects_with sync_returns in
  (exists body,
     es = body ++ [Stdout process_stopped] /\
     filter (is_type "process_stopped") (frames body) = [])
  /\ filter (is_type "process_stopped") (frames es) = [process_stopped]
  /\ last (frames es) (frame "") = process_stopped.
Proof.
  intro es.
  destruct (effects_closed sync_returns
              (fun body => filter (is_type "process_stopped") (frames body) = []))
    as [body [E Hb]].
  - reflexivity.
  - intros a b Ha Hb. now rewrite frames_app, filter_app, Ha, Hb.
  - intros msg H. simpl. now rewrite H.
  - intros b st sid err n. evaluate.
    destruct CALLBACK_URL as [url|]; simpl; auto.
    destruct (negb (url =? "")%string); reflexivity.
  - subst es. rewrite E. split; [|split].
    + now exists body.
    + rewrite frames_app, filter_app, Hb. reflexivity.
    + rewrite frames_app. simpl. apply last_last.
Qed.

(** *** The flush and the callback *)

Lemma callCallback_sent url st sid err n :
  CALLBACK_URL = Some url -> url <> "" ->
  output (callCallback CALLBACK_URL st sid err n)
  = [Post url {| status := st; sessionId := sid; errorMessage := err |}].
Proof.
  intros E Hne. unfold callCallback. rewrite E.
  apply JsFacts.truthy_some in Hne. now rewrite Hne.
Qed.

Lemma flushed_and_notified_l es es' :
  flushed_and_notified CALLBACK_URL es ->
  flushed_and_notified CALLBACK_URL (es ++ es').
Proof.
  intros [[b Hb] Hp]. split.
  - exists b. apply in_or_app. now left.
  - intros url E Hne. destruct (Hp url E Hne) as [body Hbody].
    exists body. apply in_or_app. now left.
Qed.

Lemma flushed_and_notified_r es es' :
  flushed_and_notified CALLBACK_URL es' ->
  flushed_and_notified CALLBACK_URL (es ++ es').
Proof.
  intros [[b Hb] Hp]. split.
  - exists b. apply in_or_app. now right.
  - intros url E Hne. destruct (Hp url E Hne) as [body Hbody].
    exists body. apply in_or_app. now right.
Qed.

Lemma flush_then_callback f st sid err n pre post :
  flushed_and_notified CALLBACK_URL
    (pre ++ ExecSync f :: output (callCallback CALLBACK_URL st sid err n)
         ++ post).
Proof.
  split.
  - exists f. apply in_or_app. right. now left.
  - intros url E Hne. rewrite (callCallback_sent url st sid err n E Hne).
    eexists. apply in_or_app. right. right. now left.
Qed.

Lemma on_message_flushes sync_returns m sid got n :
  snd (value (on_message CALLBACK_URL sync_returns m (sid, got) n)) = true ->
  got = true \/
  flushed_and_notified CALLBACK_URL
    (output (on_message CALLBACK_URL sync_returns m (sid, got) n)).
Proof.
  pose proof (fun pre x => flush_then_callback (sync_returns n) completed x
                             None 0 pre []) as F.
  evaluate.
  destruct ((sdk_type m =? "system")%string &&
            match sdk_subtype m with
            | Some st => (st =? "init")%string
            | None => false
            end);
    destruct (sdk_has_result m && (sdk_type m =? "result")%string); simpl;
    auto; intros _; right.
  - specialize (F [Stdout {| type := "session_started";
                             session_id := sdk_session_id m;
                             message := None; result := None |};
                   Stdout {| type := "session_complete";
                             session_id := sdk_session_id m; message := None;
                             result := Some {|
                               duration_ms := sdk_duration_ms m;
                               duration_api_ms := sdk_duration_api_ms m;
                               total_cost_usd := sdk_total_cost_usd m;
                               num_turns := sdk_num_turns m |} |}]
                  (sdk_session_id m)).
    destruct CALLBACK_URL as [url|]; simpl in *;
      try destruct (negb (url =? "")%string); simpl in *; exact F.
  - specialize (F [Stdout {| type := "session_complete";
                             session_id := sid; message := None;
                             result := Some {|
                               duration_ms := sdk_duration_ms m;
                               duration_api_ms := sdk_duration_api_ms m;
                               total_cost_usd := sdk_total_cost_usd m;
                               num_turns := sdk_num_turns m |} |}]
                  sid).
    destruct CALLBACK_URL as [url|]; simpl in *;
      try destruct (negb (url =? "")%string); simpl in *; exact F.
Qed.

Lemma for_await_flushes sync_returns ms sid got n :
  snd (value (for_await CALLBACK_URL sync_returns ms (sid, got) n)) = true ->
  got = true \/
  flushed_and_notified CALLBACK_URL
    (output (for_await CALLBACK_URL sync_returns ms (sid, got) n)).
Proof.
  revert sid got n.
  induction ms as [|m rest IH]; intros sid got n; cbn [for_await].
  - auto.
  - rewrite bind_value, bind_output.
    destruct (value (on_message CALLBACK_URL sync_returns m (sid, got) n))
      as [sid' got'] eqn:E.
    intro H. destruct (IH _ _ _ H) as [->|Hq].
    + destruct (on_message_flushes sync_returns m sid got n) as [Hg|Hq].
      * now rewrite E.
      * now left.
      * right. now apply flushed_and_notified_l.
    + right. now apply flushed_and_notified_r.
Qed.

(** *** The outcome of a flush changes nothing else *)

Lemma agree_refl {A} (r : A * list effect * nat) : agree r r.
Proof. now repeat split. Qed.

Lemma bind_agree {A B} (c c' : M A) (k k' : A -> M B) n :
  agree (c n) (c' n) ->
  (forall a m, agree (k a m) (k' a m)) ->
  agree (bind c k n) (bind c' k' n).
Proof.
  intros (Hv & Ho & Hc) Hk. unfold agree.
  rewrite !bind_value, !bind_output, !bind_count, !map_app, Hv, Hc, Ho.
  destruct (Hk (value (c' n)) (count (c' n))) as (Hv' & Ho' & Hc').
  now rewrite Hv', Ho', Hc'.
Qed.

Lemma on_message_agree f f' m loc n :
  agree (on_message CALLBACK_URL f m loc n)
        (on_message CALLBACK_URL f' m loc n).
Proof.
  destruct loc as [sid got]. unfold agree. evaluate.
  destruct ((sdk_type m =? "system")%string &&
            match sdk_subtype m with
            | Some st => (st =? "init")%string
            | None => false
            end);
    destruct (sdk_has_result m && (sdk_type m =? "result")%string); simpl;
    destruct CALLBACK_URL as [url|]; simpl;
    try destruct (negb (url =? "")%string); simpl; auto.
Qed.

Lemma for_await_agree f f' ms loc n :
  agree (for_await CALLBACK_URL f ms loc n)
        (for_await CALLBACK_URL f' ms loc n).
Proof.
  revert loc n. induction ms as [|m rest IH]; intros loc n; cbn [for_await].
  - apply agree_refl.
  - apply bind_agree; [apply on_message_agree | intros; apply IH].
Qed.

Lemma run_query_agree f f' prompt resume n :
  agree (run_query_with f prompt resume n)
        (run_query_with f' prompt resume n).
Proof.
  unfold run_query. apply bind_agree; [apply for_await_agree|].
  intros [sid got] m. destruct (throws _); [apply agree_refl|].
  destruct got; simpl; [apply agree_refl|].
  unfold agree. evaluate.
  destruct CALLBACK_URL as [url|]; simpl;
    try destruct (negb (url =? "")%string); simpl; auto.
Qed.

Lemma main_try_agree f f' n :
  agree (main_try_with f n) (main_try_with f' n).
Proof.
  unfold main_try. branches; try apply agree_refl.
  apply bind_agree; [apply agree_refl | intros; apply run_query_agree].
Qed.

Lemma effects_agree f f' :
  map forget_outcome (effects_with f) = map forget_outcome (effects_with f').
Proof.
  unfold effects, main.
  assert (forall n, agree
    (bind (main_try_with f)
       (fun c => bind (main_catch CALLBACK_URL f c)
                      (fun _ => main_finally)) n)
    (bind (main_try_with f')
       (fun c => bind (main_catch CALLBACK_URL f' c)
                      (fun _ => main_finally)) n)) as H.
  { intro n. apply bind_agree; [apply main_try_agree|].
    intros c m. apply bind_agree; [|intros; apply agree_refl].
    destruct c; try apply agree_refl.
    unfold agree. evaluate.
    destruct CALLBACK_URL as [url|]; simpl;
      try destruct (negb (url =? "")%string); simpl; auto. }
  apply (H 0).
Qed.

Lemma posts_forget es : posts (map forget_outcome es) = posts es.
Proof.
  induction es as [|[msg|b|u body] rest IH]; simpl; auto. now rewrite IH.
Qed.

Lemma frames_forget es : frames (map forget_outcome es) = frames es.
Proof.
  induction es as [|[msg|b|u body] rest IH]; simpl; auto. now rewrite IH.
Qed.

(** *** A run whose handshake succeeds *)

Lemma truthy_line line : line <> "" -> Js.truthy (Some line) = true.
Proof. apply JsFacts.truthy_some. Qed.

(** With both frames accepted, the [try] block writes [process_ready] and
    runs the engine. *)
Lemma main_try_accepted f startMsg sessionMsg n :
  start_accepted JSON_parse_start startLine startMsg ->
  message_accepted JSON_parse_message msgLine sessionMsg ->
  main_try_with f n
  = bind (emit {| type := "process_ready";
                  session_id :=
                    Js.or_else (sessionIdToResume RESUME_SESSION_ID startMsg)
                               (Some "pending");
                  message := None; result := None |})
         (fun _ => run_query_with f (parseContent sessionMsg)
                     (sessionIdToResume RESUME_SESSION_ID startMsg)) n.
Proof.
  intros (l1 & E1 & N1 & P1 & T1) (l2 & E2 & N2 & P2 & T2 & Hp).
  unfold main_try. rewrite E1, E2, (truthy_line l1 N1), (truthy_line l2 N2).
  rewrite P1, P2, T1, T2. simpl negb. cbv iota.
  now rewrite (truthy_line _ Hp).
Qed.

(** The three ways the engine's run can end. *)
Lemma run_query_cases f prompt resume n :
  let q := query prompt (workspace WORKSPACE_DIR cwd) resume in
  let loop := for_await CALLBACK_URL f (yields q) (resume, false) n in
  let r := run_query_with f prompt resume n in
  (forall e, throws q = Some e ->
     value r = Throw e /\ output r = output loop /\ count r = count loop)
  /\ (throws q = None -> snd (value loop) = true ->
      value r = Normal /\ output r = output loop /\ count r = count loop)
  /\ (throws q = None -> snd (value loop) = false ->
      value r = Normal /\
      output r
      = output loop ++
        Stdout (zeroed_session_complete (fst (value loop))) ::
        ExecSync (f (count loop)) ::
        output (callCallback CALLBACK_URL completed (fst (value loop)) None 0)
      /\ count r = S (count loop)).
Proof.
  intros q loop r. subst r. unfold run_query. fold q.
  rewrite bind_value, bind_output, bind_count. fold loop.
  destruct (value loop) as [sid got] eqn:Ev. simpl fst. simpl snd.
  split; [|split].
  - intros e ->. simpl. now rewrite app_nil_r.
  - intros -> ->. simpl. now rewrite app_nil_r.
  - intros -> ->. simpl negb. cbv iota.
    evaluate.
    destruct CALLBACK_URL as [url|]; simpl;
      try destruct (negb (url =? "")%string); simpl; auto.
Qed.

Lemma effects_accepted f startMsg sessionMsg :
  start_accepted JSON_parse_start startLine startMsg ->
  message_accepted JSON_parse_message msgLine sessionMsg ->
  let r := run_query_with f (parseContent sessionMsg)
             (sessionIdToResume RESUME_SESSION_ID startMsg) 0 in
  effects_with f
  = Stdout {| type := "process_ready";
              session_id :=
                Js.or_else (sessionIdToResume RESUME_SESSION_ID startMsg)
                           (Some "pending");
              message := None; result := None |}
    :: output r
    ++ output (main_catch CALLBACK_URL f (value r) (count r))
    ++ [Stdout process_stopped].
Proof.
  intros Hs Hm r. unfold effects, main.
  rewrite ?bind_output, ?bind_value, ?bind_count.
  rewrite (main_try_accepted f startMsg sessionMsg 0 Hs Hm).
  rewrite ?bind_output, ?bind_value, ?bind_count. reflexivity.
Qed.

Lemma on_message_no_result f m sid got n :
  is_result m = false ->
  let r := on_message CALLBACK_URL f m (sid, got) n in
  snd (value r) = got /\ count r = n /\ posts (output r) = [] /\
  filter (is_type "session_complete") (frames (output r)) = [].
Proof.
  unfold is_result. intro H. evaluate. rewrite H.
  destruct ((sdk_type m =? "system")%string &&
            match sdk_subtype m with
            | Some st => (st =? "init")%string
            | None => false
            end); simpl; auto.
Qed.

Lemma for_await_no_result f ms sid got n :
  forallb (fun m => negb (is_result m)) ms = true ->
  let r := for_await CALLBACK_URL f ms (sid, got) n in
  snd (value r) = got /\ count r = n /\ posts (output r) = [] /\
  filter (is_type "session_complete") (frames (output r)) = [].
Proof.
  revert sid got n.
  induction ms as [|m rest IH]; intros sid got n H; cbn [for_await].
  - now repeat split.
  - simpl in H. apply andb_true_iff in H as [Hm Hrest].
    apply negb_true_iff in Hm.
    rewrite bind_value, bind_output, bind_count.
    destruct (on_message_no_result f m sid got n Hm) as (Hg & Hc & Hp & Hf).
    destruct (value (on_message CALLBACK_URL f m (sid, got) n))
      as [sid' got'] eqn:Ev.
    simpl in Hg. subst got'. rewrite Hc.
    destruct (IH sid' got n Hrest) as (Hg' & Hc' & Hp' & Hf').
    rewrite posts_app, frames_app, filter_app, Hp, Hf, Hp', Hf'.
    now repeat split.
Qed.

Lemma callCallback_frames st sid err n :
  frames (output (callCallback CALLBACK_URL st sid err n)) = [].
Proof.
  evaluate. destruct CALLBACK_URL as [url|]; simpl; auto.
  now destruct (negb (url =? "")%string).
Qed.

(** C2: when both frames are accepted and the engine's event sequence
    ends, without an exception, having yielded no terminal result, the
    run ends with one [session_complete] frame with all metrics zero, a
    flush, the callback for status completed, and [process_stopped];
    there is no other [session_complete] frame, and with a callback URL
    set exactly one request, for status completed, is sent. *)
Theorem zeroed_completion_without_result
  (sync_returns : nat -> bool)
  (startMsg : ProcessStartCommand) (sessionMsg : SessionMessageCommand) :
  start_accepted JSON_parse_start startLine startMsg ->
  message_accepted JSON_parse_message msgLine sessionMsg ->
  let q := query (parseContent sessionMsg) (workspace WORKSPACE_DIR cwd)
                 (sessionIdToResume RESUME_SESSION_ID startMsg) in
  throws q = None ->
  forallb (fun m => negb (is_result m)) (yields q) = true ->
  let es := effects_with sync_returns in
  exists sid before,
    es = before ++
         Stdout (zeroed_session_complete sid) ::
         ExecSync (sync_returns 0) ::
         output (callCallback CALLBACK_URL completed sid None 0) ++
         [Stdout process_stopped]
    /\ filter (is_type "session_complete") (frames es)
       = [zeroed_session_complete sid]
    /\ (forall url, CALLBACK_URL = Some url -> url <> "" ->
          posts es = [(url, {| status := completed; sessionId := sid;
                               errorMessage := None |})]).
Proof.
  intros Hs Hm q Ht Hn es. subst es.
  rewrite (effects_accepted sync_returns startMsg sessionMsg Hs Hm).
  cbv zeta.
  destruct (run_query_cases sync_returns (parseContent sessionMsg)
              (sessionIdToResume RESUME_SESSION_ID startMsg) 0)
    as (_ & _ & Hcase).
  fold q in Hcase.
  destruct (for_await_no_result sync_returns (yields q)
              (sessionIdToResume RESUME_SESSION_ID startMsg) false 0 Hn)
    as (Hg & Hc & Hp & Hf).
  destruct (Hcase Ht Hg) as (Hv & Ho & Hcount).
  rewrite Hv, Ho, Hc. simpl main_catch. simpl (output (ret tt _)).
  set (loop := for_await CALLBACK_URL sync_returns (yields q)
                 (sessionIdToResume RESUME_SESSION_ID startMsg, false) 0)
    in *.
  exists (fst (value loop)).
  eexists (Stdout _ :: output loop).
  split; [|split].
  - rewrite output_ret. simpl. rewrite <- !app_assoc. simpl. reflexivity.
  - autorewrite with trace. rewrite callCallback_frames. simpl.
    rewrite ?filter_app, Hf. reflexivity.
  - intros url E Hne. autorewrite with trace.
    rewrite Hp, (callCallback_sent url _ _ _ _ E Hne). reflexivity.
Qed.

Lemma flush_then_callback_last f st sid err n pre :
  flushed_and_notified CALLBACK_URL
    (pre ++ ExecSync f :: output (callCallback CALLBACK_URL st sid err n)).
Proof.
  pose proof (flush_then_callback f st sid err n pre []) as H.
  now rewrite app_nil_r in H.
Qed.

Lemma flushed_and_notified_cons e es :
  flushed_and_notified CALLBACK_URL es ->
  flushed_and_notified CALLBACK_URL (e :: es).
Proof. apply (flushed_and_notified_r [e] es). Qed.

Lemma main_catch_throw f e n :
  output (main_catch CALLBACK_URL f (Throw e) n)
  = Stdout (process_error e) :: ExecSync (f n) ::
    output (callCallback CALLBACK_URL error None (Some e) 0).
Proof.
  evaluate. destruct CALLBACK_URL as [url|]; simpl; auto.
  now destruct (negb (url =? "")%string).
Qed.

(** C7: in every run a callback request is sent only directly after a
    [sync] command that has returned or thrown; which requests are sent,
    and which frames are written, does not depend on whether the [sync]
    commands return or throw; and once both frames are accepted, however
    the engine's run ends (with a result, without one, or by an
    exception), the volume is flushed and, with a callback URL set, the
    request is sent. *)
Theorem flush_before_callback (sync_returns : nat -> bool) :
  let es := effects_with sync_returns in
  flush_precedes_post false es = true
  /\ (forall sync_returns' : nat -> bool,
        posts (effects_with sync_returns') = posts es /\
        frames (effects_with sync_returns') = frames es)
  /\ (forall startMsg sessionMsg,
        start_accepted JSON_parse_start startLine startMsg ->
        message_accepted JSON_parse_message msgLine sessionMsg ->
        flushed_and_notified CALLBACK_URL es).
Proof.
  intro es. split; [|split].
  - destruct (effects_closed sync_returns
                (fun body => flush_precedes_post false body = true))
      as [body [E Hb]].
    + reflexivity.
    + intros a b Ha Hb. now apply flush_precedes_post_app.
    + reflexivity.
    + intros b st sid err n. evaluate.
      destruct CALLBACK_URL as [url|]; simpl; auto.
      destruct (negb (url =? "")%string); reflexivity.
    + subst es. rewrite E. now apply flush_precedes_post_app.
  - intro f'. subst es.
    rewrite <- (posts_forget (effects_with f')),
            <- (frames_forget (effects_with f')),
            (effects_agree f' sync_returns),
            posts_forget, frames_forget.
    now split.
  - intros startMsg sessionMsg Hs Hm. subst es.
    rewrite (effects_accepted sync_returns startMsg sessionMsg Hs Hm).
    cbv zeta.
    destruct (run_query_cases sync_returns (parseContent sessionMsg)
                (sessionIdToResume RESUME_SESSION_ID startMsg) 0)
      as (Hthrow & Hgot & Hnone).
    set (q := query (parseContent sessionMsg) (workspace WORKSPACE_DIR cwd)
                (sessionIdToResume RESUME_SESSION_ID startMsg)) in *.
    set (loop := for_await CALLBACK_URL sync_returns (yields q)
                   (sessionIdToResume RESUME_SESSION_ID startMsg, false) 0)
      in *.
    apply flushed_and_notified_cons.
    destruct (throws q) as [e|] eqn:Et.
    + (* the engine throws *)
      destruct (Hthrow e eq_refl) as (Hv & Ho & Hc).
      rewrite Hv, Ho, main_catch_throw.
      apply flushed_and_notified_r, flushed_and_notified_l.
      apply (flush_then_callback_last _ _ _ _ _ [Stdout (process_error e)]).
    + destruct (snd (value loop)) eqn:Eg.
      * (* a result was received *)
        destruct (Hgot eq_refl eq_refl) as (Hv & Ho & Hc). rewrite Ho.
        apply flushed_and_notified_l.
        destruct (for_await_flushes sync_returns (yields q)
                    (sessionIdToResume RESUME_SESSION_ID startMsg) false 0 Eg)
          as [H|H]; [discriminate | exact H].
      * (* the events ended without a result *)
        destruct (Hnone eq_refl eq_refl) as (Hv & Ho & Hc). rewrite Ho.
        apply flushed_and_notified_l, flushed_and_notified_r.
        apply (flush_then_callback_last _ _ _ _ _
                 [Stdout (zeroed_session_complete (fst (value loop)))]).
Qed.

(** *** Runs that never reach the engine *)




(** *** Counting what a run reports *)

Lemma on_message_counts f m sid got n :
  let r := on_message CALLBACK_URL f m (sid, got) n in
  List.length (filter (is_type "session_complete") (frames (output r)))
  = one_if (is_result m)
  /\ List.length (filter is_sync (output r)) = one_if (is_result m)
  /\ snd (value r) = got || is_result m
  /\ (forall url, CALLBACK_URL = Some url -> url <> "" ->
        List.length (posts (output r)) = one_if (is_result m))
  /\ filter (is_type "session_started") (frames (output r))
     = (if is_init m then [session_started (sdk_session_id m)] else [])
  /\ filter (is_type "process_error") (frames (output r)) = [].
Proof.
  unfold is_result, is_init, one_if.
  assert (forall url, CALLBACK_URL = Some url -> url <> "" ->
            negb (url =? "")%string = true) as Hu.
  { intros url _ Hne. now apply JsFacts.truthy_some in Hne. }
  evaluate.
  destruct ((sdk_type m =? "system")%string &&
            match sdk_subtype m with
            | Some st => (st =? "init")%string
            | None => false
            end);
    destruct (sdk_has_result m && (sdk_type m =? "result")%string); simpl;
    rewrite ?orb_true_r, ?orb_false_r;
    destruct CALLBACK_URL as [url|]; simpl;
    try destruct (negb (url =? "")%string) eqn:Eu; simpl;
    repeat split; auto; try discriminate;
    intros u E Hne; inversion E; subst;
    specialize (Hu u eq_refl Hne); congruence.
Qed.

Lemma for_await_counts f ms sid got n :
  let r := for_await CALLBACK_URL f ms (sid, got) n in
  let k := List.length (filter is_result ms) in
  List.length (filter (is_type "session_complete") (frames (output r))) = k
  /\ List.length (filter is_sync (output r)) = k
  /\ snd (value r) = got || negb (k =? 0)
  /\ (forall url, CALLBACK_URL = Some url -> url <> "" ->
        List.length (posts (output r)) = k)
  /\ filter (is_type "session_started") (frames (output r))
     = map (fun m => session_started (sdk_session_id m)) (filter is_init ms)
  /\ filter (is_type "process_error") (frames (output r)) = [].
Proof.
  revert sid got n.
  induction ms as [|m rest IH]; intros sid got n; cbn [for_await].
  - simpl. rewrite orb_false_r. now repeat split.
  - rewrite bind_output, bind_value.
    destruct (on_message_counts f m sid got n) as (Hc & Hs & Hg & Hp & Hi & He).
    destruct (value (on_message CALLBACK_URL f m (sid, got) n))
      as [sid' got'] eqn:Ev.
    simpl in Hg. subst got'.
    destruct (IH sid' (got || is_result m)
                (count (on_message CALLBACK_URL f m (sid, got) n)))
      as (Hc' & Hs' & Hg' & Hp' & Hi' & He').
    rewrite frames_app, !filter_app, !length_app, Hc, Hs, Hc', Hs', Hg', Hi,
      Hi', He, He'.
    cbn [filter]. unfold one_if.
    split; [|split; [|split; [|split; [|split]]]].
    + destruct (is_result m); simpl; lia.
    + destruct (is_result m); simpl; lia.
    + destruct (is_result m), got; simpl; auto.
    + intros url E Hne.
      rewrite posts_app, length_app, (Hp url E Hne), (Hp' url E Hne).
      unfold one_if. destruct (is_result m); simpl; lia.
    + destruct (is_init m); reflexivity.
    + reflexivity.
Qed.

Lemma callCallback_syncs st sid err n :
  filter is_sync (output (callCallback CALLBACK_URL st sid err n)) = [].
Proof.
  evaluate. destruct CALLBACK_URL as [url|]; simpl; auto.
  now destruct (negb (url =? "")%string).
Qed.

(** With both lines accepted, a run writes one [session_complete] frame,
    flushes once and (with a callback URL) sends one request for every
    result event the engine yields; when the events end with none it does
    each once all the same; when the engine throws it flushes and sends
    once more, and writes no [session_complete] for that. *)
Theorem one_report_per_result
  (sync_returns : nat -> bool)
  (startMsg : ProcessStartCommand) (sessionMsg : SessionMessageCommand) :
  start_accepted JSON_parse_start startLine startMsg ->
  message_accepted JSON_parse_message msgLine sessionMsg ->
  let q := query (parseContent sessionMsg) (workspace WORKSPACE_DIR cwd)
                 (sessionIdToResume RESUME_SESSION_ID startMsg) in
  let k := List.length (filter is_result (yields q)) in
  let es := effects_with sync_returns in
  List.length (filter (is_type "session_complete") (frames es))
  = match throws q with Some _ => k | None => Nat.max 1 k end
  /\ List.length (filter is_sync es)
     = match throws q with Some _ => S k | None => Nat.max 1 k end
  /\ (forall url, CALLBACK_URL = Some url -> url <> "" ->
        List.length (posts es)
        = match throws q with Some _ => S k | None => Nat.max 1 k end).
Proof.
  intros Hs Hm q k es. subst es.
  rewrite (effects_accepted sync_returns startMsg sessionMsg Hs Hm).
  cbv zeta.
  destruct (run_query_cases sync_returns (parseContent sessionMsg)
              (sessionIdToResume RESUME_SESSION_ID startMsg) 0)
    as (Hthrow & Hgot & Hnone).
  fold q in Hthrow, Hgot, Hnone.
  destruct (for_await_counts sync_returns (yields q)
              (sessionIdToResume RESUME_SESSION_ID startMsg) false 0)
    as (Hc & Hy & Hg & Hp & _ & _).
  fold k in Hc, Hy, Hg, Hp.
  set (loop := for_await CALLBACK_URL sync_returns (yields q)
                 (sessionIdToResume RESUME_SESSION_ID startMsg, false) 0)
    in *.
  simpl in Hg.
  destruct (throws q) as [e|] eqn:Et.
  - destruct (Hthrow e eq_refl) as (Hv & Ho & _).
    rewrite Hv, Ho, main_catch_throw.
    split; [|split].
    + autorewrite with trace. rewrite callCallback_frames. simpl.
      rewrite !filter_app, !length_app, Hc. simpl. lia.
    + cbn [filter is_sync]. rewrite !filter_app. cbn [filter is_sync].
      rewrite callCallback_syncs, !length_app, Hy. simpl. lia.
    + intros url E Hne. autorewrite with trace.
      rewrite (callCallback_sent url _ _ _ _ E Hne), !length_app,
        (Hp url E Hne).
      simpl. lia.
  - destruct (k =? 0) eqn:Ek.
    + apply Nat.eqb_eq in Ek. simpl in Hg.
      destruct (Hnone eq_refl Hg) as (Hv & Ho & _).
      rewrite Hv, Ho, Ek. simpl main_catch.
      split; [|split].
      * autorewrite with trace. rewrite callCallback_frames. simpl.
        rewrite !filter_app, !length_app, Hc, Ek. reflexivity.
      * cbn [filter is_sync]. rewrite !filter_app. cbn [filter is_sync].
        rewrite callCallback_syncs, !length_app, Hy, Ek. reflexivity.
      * intros url E Hne. autorewrite with trace.
        rewrite (callCallback_sent url _ _ _ _ E Hne), !length_app,
          (Hp url E Hne), Ek.
        reflexivity.
    + apply Nat.eqb_neq in Ek. simpl in Hg.
      destruct (Hgot eq_refl Hg) as (Hv & Ho & _).
      rewrite Hv, Ho. simpl main_catch.
      assert (Nat.max 1 k = k) as -> by lia.
      split; [|split].
      * autorewrite with trace. simpl.
        rewrite !filter_app, !length_app, Hc. simpl. lia.
      * cbn [filter is_sync]. rewrite !filter_app. cbn [filter is_sync].
        rewrite !length_app, Hy. simpl. lia.
      * intros url E Hne. autorewrite with trace.
        exact (Hp url E Hne).
Qed.

(** *** Which session a run reports *)

Lemma Forall_frames_app (Q : AgentMessage -> Prop) es es' :
  Forall Q (frames es) -> Forall Q (frames es') -> Forall Q (frames (es ++ es')).
Proof. intros. rewrite frames_app. now apply Forall_app. Qed.

Lemma Forall_posts_app (Q : string * CallbackBody -> Prop) es es' :
  Forall Q (posts es) -> Forall Q (posts es') -> Forall Q (posts (es ++ es')).
Proof. intros. rewrite posts_app. now apply Forall_app. Qed.

Lemma callCallback_posts st sid err n :
  Forall (fun p => status (snd p) = completed -> sessionId (snd p) = sid)
         (posts (output (callCallback CALLBACK_URL st sid err n))).
Proof.
  evaluate. destruct CALLBACK_URL as [url|]; simpl; auto.
  destruct (negb (url =? "")%string); simpl; auto.
Qed.

Lemma on_message_reports_current f m sid got n :
  is_init m = false ->
  let r := on_message CALLBACK_URL f m (sid, got) n in
  fst (value r) = sid
  /\ Forall (fun fr => type fr = "session_complete" -> session_id fr = sid)
            (frames (output r))
  /\ Forall (fun p => status (snd p) = completed -> sessionId (snd p) = sid)
            (posts (output r)).
Proof.
  unfold is_init. intro Hi.
  pose proof (callCallback_posts completed sid None (S n)) as Hp.
  evaluate. rewrite Hi.
  destruct (sdk_has_result m && (sdk_type m =? "result")%string); simpl.
  - destruct CALLBACK_URL as [url|]; simpl in *;
      try destruct (negb (url =? "")%string); simpl in *;
      repeat split; auto.
  - repeat split; auto.
Qed.

Lemma for_await_reports_current f ms sid got n :
  filter is_init ms = [] ->
  let r := for_await CALLBACK_URL f ms (sid, got) n in
  fst (value r) = sid
  /\ Forall (fun fr => type fr = "session_complete" -> session_id fr = sid)
            (frames (output r))
  /\ Forall (fun p => status (snd p) = completed -> sessionId (snd p) = sid)
            (posts (output r)).
Proof.
  revert sid got n.
  induction ms as [|m rest IH]; intros sid got n Hno; cbn [for_await].
  - simpl. auto.
  - simpl in Hno. destruct (is_init m) eqn:Hi; [discriminate|].
    rewrite bind_output, bind_value.
    destruct (on_message_reports_current f m sid got n Hi) as (Hv & Hf & Hp).
    destruct (value (on_message CALLBACK_URL f m (sid, got) n))
      as [sid' got'] eqn:Ev.
    simpl in Hv. subst sid'.
    destruct (IH sid got' (count (on_message CALLBACK_URL f m (sid, got) n))
                 Hno) as (Hv' & Hf' & Hp').
    split; [exact Hv'|].
    split; [now apply Forall_frames_app | now apply Forall_posts_app].
Qed.

Lemma on_message_init f m sid got n :
  is_init m = true ->
  let r := on_message CALLBACK_URL f m (sid, got) n in
  fst (value r) = sdk_session_id m
  /\ Forall (fun fr => type fr = "session_complete" ->
                       session_id fr = sdk_session_id m)
            (frames (output r))
  /\ Forall (fun p => status (snd p) = completed ->
                      sessionId (snd p) = sdk_session_id m)
            (posts (output r)).
Proof.
  unfold is_init. intro Hi.
  evaluate. rewrite Hi.
  destruct (sdk_has_result m && (sdk_type m =? "result")%string); simpl.
  - destruct CALLBACK_URL as [url|]; simpl in *;
      try destruct (negb (url =? "")%string); simpl in *;
      repeat split; auto; repeat constructor; auto; discriminate.
  - repeat split; auto; repeat constructor; auto; discriminate.
Qed.

(** With both lines accepted: the [session_started] frames are the
    engine's initialization events, in order, each with that event's
    session id; a [process_error] frame is written only for an exception
    of the engine, with its message; and when the engine yields no
    initialization event, or yields one first and no other, every
    [session_complete] frame and every callback for status completed
    carries the resumed session id, or that event's id. *)
Theorem reported_session_follows_the_engine
  (sync_returns : nat -> bool)
  (startMsg : ProcessStartCommand) (sessionMsg : SessionMessageCommand) :
  start_accepted JSON_parse_start startLine startMsg ->
  message_accepted JSON_parse_message msgLine sessionMsg ->
  let resume := sessionIdToResume RESUME_SESSION_ID startMsg in
  let q := query (parseContent sessionMsg) (workspace WORKSPACE_DIR cwd)
                 resume in
  let es := effects_with sync_returns in
  let carries (sid : option string) :=
    Forall (fun fr => type fr = "session_complete" -> session_id fr = sid)
           (frames es)
    /\ Forall (fun p => status (snd p) = completed -> sessionId (snd p) = sid)
              (posts es) in
  filter (is_type "session_started") (frames es)
  = map (fun m => session_started (sdk_session_id m))
        (filter is_init (yields q))
  /\ filter (is_type "process_error") (frames es)
     = match throws q with Some e => [process_error e] | None => [] end
  /\ (filter is_init (yields q) = [] -> carries resume)
  /\ (forall m rest, yields q = m :: rest -> is_init m = true ->
        filter is_init rest = [] -> carries (sdk_session_id m)).
Proof.
  intros Hs Hm resume q es carries. subst es carries. cbv beta.
  rewrite (effects_accepted sync_returns startMsg sessionMsg Hs Hm).
  cbv zeta. fold resume.
  destruct (run_query_cases sync_returns (parseContent sessionMsg) resume 0)
    as (Hthrow & Hgot & Hnone).
  fold q in Hthrow, Hgot, Hnone.
  destruct (for_await_counts sync_returns (yields q) resume false 0)
    as (_ & _ & _ & _ & Hst & Her).
  set (loop := for_await CALLBACK_URL sync_returns (yields q)
                 (resume, false) 0) in *.
  (* the trace after [process_ready], from the loop's result on *)
  assert (exists tail,
    output (run_query_with sync_returns (parseContent sessionMsg) resume 0)
    ++ output (main_catch CALLBACK_URL sync_returns
         (value (run_query_with sync_returns (parseContent sessionMsg)
                   resume 0))
         (count (run_query_with sync_returns (parseContent sessionMsg)
                   resume 0)))
    ++ [Stdout process_stopped]
    = output loop ++ tail
    /\ filter (is_type "session_started") (frames tail) = []
    /\ filter (is_type "process_error") (frames tail)
       = match throws q with Some e => [process_error e] | None => [] end
    /\ Forall (fun fr => type fr = "session_complete" ->
                         session_id fr = fst (value loop)) (frames tail)
    /\ Forall (fun p => status (snd p) = completed ->
                        sessionId (snd p) = fst (value loop)) (posts tail))
    as (tail & -> & Tst & Ter & Tf & Tp).
  { destruct (throws q) as [e|] eqn:Et.
    - destruct (Hthrow e eq_refl) as (Hv & Ho & _).
      rewrite Hv, Ho, main_catch_throw. eexists. split; [reflexivity|].
      autorewrite with trace. rewrite callCallback_frames. simpl.
      repeat split; auto.
      + repeat constructor; discriminate.
      + evaluate. destruct CALLBACK_URL as [url|]; simpl; auto.
        destruct (negb (url =? "")%string); simpl; auto.
        repeat constructor. discriminate.
    - destruct (snd (value loop)) eqn:Eg.
      + destruct (Hgot eq_refl eq_refl) as (Hv & Ho & _).
        rewrite Hv, Ho. simpl main_catch. rewrite output_ret.
        eexists. split; [reflexivity|]. simpl.
        repeat split; auto. repeat constructor. discriminate.
      + destruct (Hnone eq_refl eq_refl) as (Hv & Ho & _).
        rewrite Hv, Ho. simpl main_catch. rewrite output_ret.
        rewrite <- app_assoc. eexists. split; [reflexivity|].
        autorewrite with trace. rewrite callCallback_frames. simpl.
        repeat split; auto.
        * repeat constructor; auto; discriminate.
        * apply callCallback_posts. }
  split; [|split; [|split]].
  - rewrite frames_stdout, frames_app. cbn [filter is_type type].
    simpl (_ =? _)%string. rewrite filter_app, Hst, Tst, app_nil_r.
    reflexivity.
  - rewrite frames_stdout, frames_app. cbn [filter is_type type].
    simpl (_ =? _)%string. rewrite filter_app, Her, Ter. reflexivity.
  - intro Hno.
    destruct (for_await_reports_current sync_returns (yields q) resume false 0
                Hno) as (Hv & Hf & Hp).
    fold loop in Hv, Hf, Hp. rewrite Hv in Tf, Tp.
    split.
    + rewrite frames_stdout. constructor; [discriminate|].
      now apply Forall_frames_app.
    + rewrite posts_stdout. now apply Forall_posts_app.
  - intros m rest Ey Hi Hno.
    subst loop. rewrite Ey in *. cbn [for_await] in *.
    rewrite bind_output, bind_value in *.
    destruct (on_message_init sync_returns m resume false 0 Hi)
      as (Hv & Hf & Hp).
    destruct (value (on_message CALLBACK_URL sync_returns m (resume, false) 0))
      as [sid' got'] eqn:Ev.
    simpl in Hv. subst sid'.
    destruct (for_await_reports_current sync_returns rest (sdk_session_id m)
                got'
                (count (on_message CALLBACK_URL sync_returns m
                          (resume, false) 0)) Hno) as (Hv' & Hf' & Hp').
    rewrite Hv' in Tf, Tp.
    split.
    + rewrite frames_stdout. constructor; [discriminate|].
      apply Forall_frames_app; [now apply Forall_frames_app | exact Tf].
    + rewrite posts_stdout.
      apply Forall_posts_app; [now apply Forall_posts_app | exact Tp].
Qed.

Lemma ready_session_id startMsg :
  exists sid,
    Js.or_else (sessionIdToResume RESUME_SESSION_ID startMsg) (Some "pending")
    = Some sid
    /\ sid <> ""
    /\ (forall s, start_session_id startMsg = Some s -> s <> "" -> sid = s)
    /\ (Js.truthy (start_session_id startMsg) = false ->
        forall s, RESUME_SESSION_ID = Some s -> s <> "" -> sid = s)
    /\ (Js.truthy (start_session_id startMsg) = false ->
        Js.truthy RESUME_SESSION_ID = false -> sid = "pending").
Proof.
  unfold sessionIdToResume, resumeSessionId, Js.or_else.
  destruct (start_session_id startMsg) as [s|]; simpl;
    [destruct (s =? "")%string eqn:Es; simpl|];
    (destruct RESUME_SESSION_ID as [r|]; simpl;
     [destruct (r =? "")%string eqn:Er; simpl|]);
    rewrite ?Es, ?Er; simpl; rewrite ?Es, ?Er; simpl;
    eexists; (split; [reflexivity|]);
    repeat split;
    try discriminate;
    try (intros; congruence);
    try (apply String.eqb_neq; assumption);
    try (intros s' E Hne; inversion E; subst;
         apply String.eqb_neq in Hne; congruence);
    try (intros _ s' E Hne; inversion E; subst;
         apply String.eqb_neq in Hne; congruence).
Qed.

(** Once the start line is accepted, the first frame is [process_ready]
    with a session id that is never empty: the id of the start frame
    when it has a non-empty one, else the [RESUME_SESSION_ID] of the
    environment when that is non-empty, else the placeholder "pending". *)
Theorem process_ready_names_a_session
  (sync_returns : nat -> bool) (startMsg : ProcessStartCommand) :
  start_accepted JSON_parse_start startLine startMsg ->
  exists sid rest,
    frames (effects_with sync_returns) = process_ready (Some sid) :: rest
    /\ sid <> ""
    /\ (forall s, start_session_id startMsg = Some s -> s <> "" -> sid = s)
    /\ (Js.truthy (start_session_id startMsg) = false ->
        forall s, RESUME_SESSION_ID = Some s -> s <> "" -> sid = s)
    /\ (Js.truthy (start_session_id startMsg) = false ->
        Js.truthy RESUME_SESSION_ID = false -> sid = "pending").
Proof.
  intros (l1 & E1 & N1 & P1 & T1).
  destruct (ready_session_id startMsg) as (sid & Eid & Hprops).
  exists sid. unfold effects, main, main_try.
  rewrite E1, (truthy_line l1 N1), P1, T1. simpl negb. cbv iota.
  rewrite Eid, !bind_output. simpl. eexists. split; [reflexivity | exact Hprops].
Qed.

End Process.

(** The scenario of the design document: [process_start], then a
    [session_message] with the text "hello", an engine that reports the
    session id "abc" and a result after three turns. *)
Example scenario_frames :
  frames (demo_effects demo_query)
  = [ {| type := "process_ready"; session_id := Some "pending";
         message := None; result := None |};
      {| type := "session_started"; session_id := Some "abc";
         message := None; result := None |};
      {| type := "session_complete"; session_id := Some "abc";
         message := None;
         result := Some {| duration_ms := Some 1200%Q;
                           duration_api_ms := Some 900%Q;
                           total_cost_usd := Some (1 # 50)%Q;
                           num_turns := Some 3%Q |} |};
      process_stopped ].
Proof. reflexivity. Qed.

Lemma demo_start_accepted :
  start_accepted demo_parse_start (Some "start") demo_start.
Proof.
  exists "start". repeat split. discriminate.
Defined.

Lemma demo_message_accepted :
  message_accepted demo_parse_message (Some "message") demo_message.
Proof.
  exists "message". repeat split; discriminate.
Defined.

(** C2 on the sample run whose engine reports the session id and ends
    without a result, with the flush failing. *)
Lemma zeroed_completion_without_result_witness :
  exists sid before,
    demo_effects demo_query_without_result
    = before ++
      Stdout (zeroed_session_complete sid) ::
      ExecSync false ::
      output (callCallback (Some "http://web/status") completed sid None 0) ++
      [Stdout process_stopped]
    /\ filter (is_type "session_complete")
         (frames (demo_effects demo_query_without_result))
       = [zeroed_session_complete sid]
    /\ (forall url, Some "http://web/status" = Some url -> url <> "" ->
          posts (demo_effects demo_query_without_result)
          = [(url, {| status := completed; sessionId := sid;
                      errorMessage := None |})]).
Proof.
  apply (zeroed_completion_without_result
           None "/workspace/data" None (Some "http://web/status")
           demo_parse_start demo_parse_message demo_query_without_result
           (Some "start") (Some "message") (fun _ => false)
           demo_start demo_message).
  - exact demo_start_accepted.
  - exact demo_message_accepted.
  - reflexivity.
  - reflexivity.
Defined.

(** C7 on the sample run that ends with a result, with the flush
    failing. *)
Lemma flush_before_callback_witness :
  flushed_and_notified (Some "http://web/status") (demo_effects demo_query).
Proof.
  apply (proj2 (proj2 (flush_before_callback
           None "/workspace/data" None (Some "http://web/status")
           demo_parse_start demo_parse_message demo_query
           (Some "start") (Some "message") (fun _ => false)))
         demo_start demo_message).
  - exact demo_start_accepted.
  - exact demo_message_accepted.
Defined.



(** The sample run that ends with one result. *)
Lemma one_report_per_result_witness :
  List.length (filter (is_type "session_complete")
                 (frames (demo_effects demo_query))) = 1
  /\ List.length (filter is_sync (demo_effects demo_query)) = 1.
Proof.
  pose proof (one_report_per_result
                None "/workspace/data" None (Some "http://web/status")
                demo_parse_start demo_parse_message demo_query
                (Some "start") (Some "message") (fun _ => false)
                demo_start demo_message
                demo_start_accepted demo_message_accepted) as H.
  exact (conj (proj1 H) (proj1 (proj2 H))).
Defined.

(** The sample run: the engine reports the session "abc" first. *)
Lemma reported_session_follows_the_engine_witness :
  Forall (fun fr => type fr = "session_complete" ->
                    session_id fr = Some "abc")
         (frames (demo_effects demo_query))
  /\ Forall (fun p => status (snd p) = completed ->
                      sessionId (snd p) = Some "abc")
            (posts (demo_effects demo_query)).
Proof.
  exact (proj2 (proj2 (proj2
    (reported_session_follows_the_engine
       None "/workspace/data" None (Some "http://web/status")
       demo_parse_start demo_parse_message demo_query
       (Some "start") (Some "message") (fun _ => false)
       demo_start demo_message
       demo_start_accepted demo_message_accepted)))
    demo_init [demo_result] eq_refl eq_refl eq_refl).
Defined.

(** The sample run: no id in the start frame or the environment. *)
Lemma process_ready_names_a_session_witness :
  exists sid rest,
    frames (demo_effects demo_query) = process_ready (Some sid) :: rest
    /\ sid <> ""
    /\ (forall s, start_session_id demo_start = Some s -> s <> "" -> sid = s)
    /\ (Js.truthy (start_session_id demo_start) = false ->
        forall s, @None string = Some s -> s <> "" -> sid = s)
    /\ (Js.truthy (start_session_id demo_start) = false ->
        Js.truthy None = false -> sid = "pending").
Proof.
  exact (process_ready_names_a_session
           None "/workspace/data" None (Some "http://web/status")
           demo_parse_start demo_parse_message demo_query
           (Some "start") (Some "message") (fun _ => false)
           demo_start demo_start_accepted).
Defined.

End AgentFacts.

(** ** The polling page *)

Module HomeFacts.

Import Content Home.

Lemma run_from_app h evs evs' :
  run_from h (evs ++ evs') = run_from (run_from h evs) evs'.
Proof. unfold run_from. apply fold_left_app. Qed.

Lemma run_app evs evs' : run (evs ++ evs') = run_from (run evs) evs'.
Proof. apply run_from_app. Qed.

Lemma run_step evs e : run (evs ++ [e]) = step (run evs) e.
Proof. now rewrite run_app. Qed.

(** *** The busy flag *)

Lemma step_guard_consistent h e :
  guard_consistent h -> guard_consistent (step h e).
Proof.
  unfold guard_consistent. intro G.
  destruct e as [|r| |text pid now|c|pid msg]; simpl.
  - unfold on_tick. destruct (pollInterval (runtime h)); simpl; auto.
    destruct (isPollingRef (refs h)) eqn:E; simpl; [now rewrite E|].
    rewrite G. reflexivity.
  - unfold on_response.
    destruct (in_flight (runtime h) =? 0) eqn:E; [exact G|].
    apply Nat.eqb_neq in E.
    destruct (isPollingRef (refs h)); [|contradiction].
    destruct r; simpl; rewrite G; reflexivity.
  - unfold on_timer. destruct (refreshTimers (runtime h)); simpl; auto.
  - exact G.
  - exact G.
  - exact G.
Qed.

Lemma run_guard_consistent evs : guard_consistent (run evs).
Proof.
  induction evs as [|e evs IH] using rev_ind.
  - reflexivity.
  - rewrite run_step. now apply step_guard_consistent.
Qed.

(** C4: in every state the component can reach at most one poll request
    is out; a tick that fires while one is out changes nothing (no fetch,
    nothing remembered for later); whatever the answer to the request,
    also a failure, the busy flag is clear afterwards and no request is
    out; and a tick that fires with no request out and the interval
    installed sends one. *)
Theorem at_most_one_poll_in_flight (evs : list event) :
  let h := run evs in
  in_flight (runtime h) <= 1
  /\ (in_flight (runtime h) = 1 -> step h Tick = h)
  /\ (forall r, in_flight (runtime h) = 1 ->
        isPollingRef (refs (step h (Response r))) = false /\
        in_flight (runtime (step h (Response r))) = 0 /\
        fetches (runtime (step h (Response r))) = fetches (runtime h))
  /\ (in_flight (runtime h) = 0 -> pollInterval (runtime h) = true ->
        in_flight (runtime (step h Tick)) = 1 /\
        fetches (runtime (step h Tick)) = fetches (runtime h) + 1).
Proof.
  intro h. pose proof (run_guard_consistent evs) as G. fold h in G.
  unfold guard_consistent in G.
  split; [|split; [|split]].
  - rewrite G. destruct (isPollingRef (refs h)); lia.
  - intro H. simpl. unfold on_tick.
    destruct (pollInterval (runtime h)); simpl; auto.
    destruct (isPollingRef (refs h)); [reflexivity|].
    rewrite G in H. discriminate.
  - intros r H. simpl. unfold on_response. rewrite H. simpl.
    destruct r; simpl; rewrite H; auto.
  - intros H Hi. simpl. unfold on_tick. rewrite Hi. simpl.
    destruct (isPollingRef (refs h)); [rewrite G in H; discriminate|].
    simpl. rewrite H. auto.
Qed.

(** C4 after a submission and one tick: the request of that tick is out,
    and a second tick is dropped. *)
Lemma at_most_one_poll_in_flight_witness :
  let h := run (demo_submitted ++ [Tick]) in
  in_flight (runtime h) = 1 /\ step h Tick = h.
Proof.
  cbv zeta. split; [reflexivity|].
  apply (proj1 (proj2 (at_most_one_poll_in_flight (demo_submitted ++ [Tick])))).
  reflexivity.
Defined.

(** *** The pending filter *)

Lemma hasPendingMatch_spec p ms :
  hasPendingMatch p ms = true <->
  exists m, In m ms /\ entry_type m = "user" /\
            getUserMessageText (entry_content m) = content p.
Proof.
  unfold hasPendingMatch, Js.some. rewrite existsb_exists.
  split; intros [m [Hin H]]; exists m; split; auto.
  - apply andb_true_iff in H as [Ht Hc].
    apply String.eqb_eq in Ht, Hc. auto.
  - destruct H as [Ht Hc]. apply andb_true_iff.
    split; now apply String.eqb_eq.
Qed.

(** C5: when a poll completes, a message of the pending set is still in
    the set afterwards if and only if no entry of the fetched sequence has
    type "user" and extracted text equal to the message's text; a poll
    that fails leaves the pending set as it is. *)
Theorem pending_kept_iff_unmatched
  (h : Home) (data : ConversationResponse) (p : PendingMessage) :
  in_flight (runtime h) <> 0 ->
  In p (pendingMessages (state h)) ->
  (In p (pendingMessages (state (step h (Response (Ok data))))) <->
   ~ exists m, In m (data_messages data) /\ entry_type m = "user" /\
               getUserMessageText (entry_content m) = content p)
  /\ pendingMessages (state (step h (Response NotOk)))
     = pendingMessages (state h)
  /\ pendingMessages (state (step h (Response Rejected)))
     = pendingMessages (state h).
Proof.
  intros Hf Hin. apply Nat.eqb_neq in Hf.
  simpl. unfold on_response. rewrite Hf. simpl.
  split; [|split; reflexivity].
  rewrite <- hasPendingMatch_spec.
  destruct (data_messages data) as [|m ms] eqn:Em; simpl.
  - split; [intros _ H; discriminate | auto].
  - rewrite filter_In, negb_true_iff.
    split.
    + intros [_ H] H'. congruence.
    + intro H. split; [exact Hin|]. now apply not_true_is_false.
Qed.

(** C5 on the sample conversation: the poll that fetches the user's
    message retires the pending one. *)
Lemma pending_kept_iff_unmatched_witness :
  let h := run (demo_submitted ++ [Tick]) in
  ~ In demo_pending
      (pendingMessages (state (step h (Response (Ok demo_confirmed))))).
Proof.
  cbv zeta. intro H.
  apply (proj1 (proj1 (pending_kept_iff_unmatched
                  (run (demo_submitted ++ [Tick])) demo_confirmed demo_pending
                  ltac:(discriminate) ltac:(left; reflexivity))) H).
  eexists. split; [left; reflexivity|]. split; reflexivity.
Defined.

(** *** The refresh signal *)

Lemma tick_state h : state (step h Tick) = state h.
Proof.
  simpl. unfold on_tick.
  destruct (pollInterval (runtime h)); auto.
  now destruct (isPollingRef (refs h)).
Qed.

Lemma tick_snapshot h :
  prevPollDataRef (refs (step h Tick)) = prevPollDataRef (refs h).
Proof.
  simpl. unfold on_tick.
  destruct (pollInterval (runtime h)); auto.
  now destruct (isPollingRef (refs h)).
Qed.

Lemma pair_changed data (prev : string * nat) :
  negb (data_status data =? fst prev)%string
  || negb (List.length (data_messages data) =? snd prev) = false
  <-> pair_of data = prev.
Proof.
  destruct prev as [st n]. unfold pair_of. simpl.
  rewrite orb_false_iff, !negb_false_iff, String.eqb_eq, Nat.eqb_eq.
  split; [intros [-> ->]; reflexivity | intro H; now inversion H].
Qed.

Lemma unchanged_poll h data :
  pair_of data = prevPollDataRef (refs h) ->
  refreshTrigger (state (step h (Response (Ok data))))
  = refreshTrigger (state h)
  /\ prevPollDataRef (refs (step h (Response (Ok data))))
     = prevPollDataRef (refs h).
Proof.
  intro H. simpl. unfold on_response.
  destruct (in_flight (runtime h) =? 0); [auto|]. simpl.
  apply pair_changed in H as H'. rewrite H'. auto.
Qed.

(** C6, as the specification states it, fails: in the sample conversation
    the first poll finds the session completed; the two polls after it
    fetch the same status and the same number of messages, and the
    refresh signal still fires twice while they run, from the two
    timeouts set when the status became "completed". *)
Lemma refresh_fires_while_unchanged : ~ no_refresh_while_unchanged.
Proof.
  intro H.
  specialize (H (demo_submitted ++ poll demo_completed)
                [Tick; TimerFire; Response (Ok demo_completed);
                 Tick; TimerFire; Response (Ok demo_completed)]).
  assert (forall data,
            In (Response (Ok data))
               [Tick; TimerFire; Response (Ok demo_completed);
                Tick; TimerFire; Response (Ok demo_completed)] ->
            pair_of data
            = prevPollDataRef
                (refs (run (demo_submitted ++ poll demo_completed)))) as Hp.
  { intros data Hin. simpl in Hin.
    repeat (destruct Hin as [Hin|Hin]; try discriminate; try contradiction);
      inversion Hin; reflexivity. }
  specialize (H Hp). vm_compute in H. discriminate.
Qed.

(** C6, amended: a completed poll fires the refresh signal exactly when
    the fetched (status, message count) pair differs from the snapshot,
    and leaves the fetched pair as the snapshot either way; consecutive
    polls that fetch the pair of the snapshot fire nothing; a refresh
    timeout that is still set fires the signal once when it goes off,
    whatever was fetched. *)
Theorem refresh_gated_by_snapshot (h : Home) :
  (forall data, in_flight (runtime h) <> 0 ->
     let h' := step h (Response (Ok data)) in
     (pair_of data <> prevPollDataRef (refs h) ->
        refreshTrigger (state h') = refreshTrigger (state h) + 1)
     /\ (pair_of data = prevPollDataRef (refs h) ->
           refreshTrigger (state h') = refreshTrigger (state h))
     /\ prevPollDataRef (refs h') = pair_of data)
  /\ (forall datas,
        Forall (fun data => pair_of data = prevPollDataRef (refs h)) datas ->
        refreshTrigger (state (run_from h (polls datas)))
        = refreshTrigger (state h))
  /\ (refreshTimers (runtime h) <> 0 ->
        refreshTrigger (state (step h TimerFire))
        = refreshTrigger (state h) + 1).
Proof.
  split; [|split].
  - intros data Hf h'. subst h'. apply Nat.eqb_neq in Hf.
    simpl. unfold on_response. rewrite Hf. simpl.
    split; [|split].
    + intro Hne.
      destruct (negb (data_status data =? fst (prevPollDataRef (refs h)))%string
                || negb (List.length (data_messages data)
                         =? snd (prevPollDataRef (refs h)))) eqn:E;
        [reflexivity|].
      apply pair_changed in E. contradiction.
    + intro He. apply pair_changed in He. now rewrite He.
    + reflexivity.
  - intro datas. revert h.
    induction datas as [|data rest IH]; intros h Hall; [reflexivity|].
    inversion Hall as [|? ? Hd Hrest]; subst.
    cbn [polls poll]. rewrite run_from_app. cbn [run_from fold_left app].
    set (h1 := step (step h Tick) (Response (Ok data))).
    assert (refreshTrigger (state h1) = refreshTrigger (state h)
            /\ prevPollDataRef (refs h1) = prevPollDataRef (refs h))
      as [Ht Hs].
    { subst h1. rewrite <- (tick_state h), <- (tick_snapshot h).
      apply unchanged_poll. now rewrite tick_snapshot. }
    rewrite <- Ht. apply IH. now rewrite Hs.
  - intro Hne. simpl. unfold on_timer.
    destruct (refreshTimers (runtime h)); [contradiction | reflexivity].
Qed.

(** C6, amended, on the sample conversation: the second poll fetches what
    the first did and fires nothing. *)
Lemma refresh_gated_by_snapshot_witness :
  let h := run (demo_submitted ++ poll demo_completed ++ [Tick]) in
  refreshTrigger (state (step h (Response (Ok demo_completed))))
  = refreshTrigger (state h).
Proof.
  cbv zeta.
  apply (proj1 (proj2 (proj1 (refresh_gated_by_snapshot
           (run (demo_submitted ++ poll demo_completed ++ [Tick])))
           demo_completed ltac:(discriminate)))).
  reflexivity.
Defined.

(** *** The cap on polls after completion *)

Lemma demo_first_poll :
  run (demo_submitted ++ polls (repeat demo_completed 1)) = demo_after 1.
Proof. reflexivity. Qed.

Lemma demo_next_poll n :
  run_from (demo_after n) (poll demo_completed) = demo_after (S n).
Proof.
  unfold run_from, poll, demo_after. simpl.
  unfold on_response, on_tick. simpl.
  unfold render, on_finally, on_data. simpl.
  rewrite !Nat.add_1_r. reflexivity.
Qed.

Lemma polls_snoc datas data :
  polls (datas ++ [data]) = polls datas ++ poll data.
Proof.
  induction datas as [|d rest IH]; simpl; [reflexivity|]. now rewrite IH.
Qed.

Lemma repeat_snoc {A} (a : A) n : repeat a (S n) = repeat a n ++ [a].
Proof.
  induction n as [|n IH]; [reflexivity|].
  change (repeat a (S (S n))) with (a :: repeat a (S n)).
  rewrite IH at 1. reflexivity.
Qed.

(** C3 fails on the code: in the sample conversation the session is found
    completed by the first poll while the user's message stays unmatched;
    every later tick still sends a request, however many have been sent:
    after [n + 1] polls the interval is still installed, [n + 1] requests
    have been sent, and the counter of polls after completion, which
    stands at [n + 1], has stopped nothing. *)
Theorem polling_goes_on_past_the_cap (n : nat) :
  let h := run (demo_submitted ++ polls (repeat demo_completed (S n))) in
  h = demo_after (S n)
  /\ status (state h) = "completed"
  /\ pendingMessages (state h) = [demo_pending]
  /\ pollInterval (runtime h) = true
  /\ postCompletionPollsRef (refs h) = S n
  /\ fetches (runtime h) = S n
  /\ fetches (runtime (step h Tick)) = S (S n).
Proof.
  cbv zeta.
  assert (run (demo_submitted ++ polls (repeat demo_completed (S n)))
          = demo_after (S n)) as E.
  { induction n as [|n IH]; [exact demo_first_poll|].
    rewrite repeat_snoc, polls_snoc, app_assoc, run_app, IH.
    apply demo_next_poll. }
  rewrite E. repeat split. simpl. now rewrite Nat.add_1_r.
Qed.

(** *** What the effects keep true *)

Lemma option_eqb_eq a b : option_eqb a b = true <-> a = b.
Proof.
  destruct a as [x|], b as [y|]; simpl; try (split; congruence).
  rewrite String.eqb_eq. split; congruence.
Qed.

Lemma deps_eqb_eq a b : deps_eqb a b = true <-> a = b.
Proof.
  destruct a as [[c1 s1] n1], b as [[c2 s2] n2]. simpl.
  rewrite !andb_true_iff, option_eqb_eq, String.eqb_eq, Nat.eqb_eq.
  split; [intros [[-> ->] ->]; reflexivity | intro H; inversion H; auto].
Qed.

Lemma polling_effect_running h :
  status (state h) = "running" ->
  polling_effect h = Js.truthy (conversationId (state h)).
Proof.
  unfold polling_effect. intros ->. simpl.
  now destruct (Js.truthy (conversationId (state h))).
Qed.

Lemma polling_effect_idle h :
  isDone (status (state h)) = false -> status (state h) <> "running" ->
  polling_effect h = false.
Proof.
  unfold polling_effect. intros -> Hr. apply String.eqb_neq in Hr.
  rewrite Hr. simpl. now destruct (Js.truthy (conversationId (state h))).
Qed.

Lemma polling_effect_done h :
  isDone (status (state h)) = true -> polling_effect h = true ->
  pendingMessages (state h) <> [].
Proof.
  unfold polling_effect. intros -> H E. rewrite E in H. simpl in H.
  now destruct (negb (Js.truthy (conversationId (state h)))).
Qed.

Lemma polling_effect_no_conversation h :
  Js.truthy (conversationId (state h)) = false -> polling_effect h = false.
Proof. unfold polling_effect. now intros ->. Qed.

(** A render after any change of the state or the refs puts the effects
    back in agreement. *)
Lemma render_state h : state (render h) = state h.
Proof. reflexivity. Qed.

Lemma render_interval h :
  pollInterval (runtime (render h))
  = if deps_eqb (deps h) (pollDeps (runtime h))
    then pollInterval (runtime h) else polling_effect h.
Proof.
  unfold render. cbn [runtime pollInterval].
  now destruct (deps_eqb (deps h) (pollDeps (runtime h))).
Qed.

Lemma render_poll_deps h : pollDeps (runtime (render h)) = deps h.
Proof.
  unfold render. cbn [runtime pollDeps].
  destruct (deps_eqb (deps h) (pollDeps (runtime h))) eqn:E; simpl;
    [|reflexivity].
  apply deps_eqb_eq in E. now symmetry.
Qed.

Lemma render_timer_deps h : timerDeps (runtime (render h)) = status (state h).
Proof.
  unfold render. cbn [runtime timerDeps].
  destruct (status (state h) =? timerDeps (runtime h))%string eqn:E; simpl;
    [|reflexivity].
  apply String.eqb_eq in E. now symmetry.
Qed.

Lemma render_timers h :
  refreshTimers (runtime (render h))
  = if (status (state h) =? timerDeps (runtime h))%string
    then refreshTimers (runtime h)
    else if isDone (status (state h)) then 2 else 0.
Proof.
  unfold render. cbn [runtime refreshTimers].
  now destruct (status (state h) =? timerDeps (runtime h))%string.
Qed.

(** A render after any change of the state or the refs puts the effects
    back in agreement. *)
Lemma render_lifecycle h h' :
  lifecycle h -> same_schedule h h' -> lifecycle (render h').
Proof.
  intros L (Hi & Hd & Ht & Htd).
  destruct L as [Lpd Ltd Lrun Lidle Ldone Lnoc Ltim Ltimd].
  assert (deps_eqb (deps h') (pollDeps (runtime h')) = true ->
          conversationId (state h') = conversationId (state h) /\
          status (state h') = status (state h) /\
          List.length (pendingMessages (state h'))
          = List.length (pendingMessages (state h))) as Hsame.
  { intro E. apply deps_eqb_eq in E. rewrite Hd, Lpd in E.
    unfold deps in E. inversion E. auto. }
  constructor; rewrite ?render_state.
  - rewrite render_poll_deps. reflexivity.
  - apply render_timer_deps.
  - intro Hr. rewrite render_interval.
    destruct (deps_eqb (deps h') (pollDeps (runtime h'))) eqn:E;
      [|now apply polling_effect_running].
    destruct (Hsame eq_refl) as (Hc & Hs & _).
    rewrite Hi, Hc. apply Lrun. congruence.
  - intros Hnd Hnr. rewrite render_interval.
    destruct (deps_eqb (deps h') (pollDeps (runtime h'))) eqn:E;
      [|now apply polling_effect_idle].
    destruct (Hsame eq_refl) as (_ & Hs & _).
    rewrite Hi. apply Lidle; congruence.
  - intro Hdone. rewrite render_interval.
    destruct (deps_eqb (deps h') (pollDeps (runtime h'))) eqn:E;
      [|now apply polling_effect_done].
    destruct (Hsame eq_refl) as (_ & Hs & Hl).
    rewrite Hi. intros Hint Hnil. rewrite Hs in Hdone.
    apply (Ldone Hdone Hint). apply length_zero_iff_nil.
    rewrite <- Hl, Hnil. reflexivity.
  - intro Hnc. rewrite render_interval.
    destruct (deps_eqb (deps h') (pollDeps (runtime h'))) eqn:E;
      [|now apply polling_effect_no_conversation].
    destruct (Hsame eq_refl) as (Hc & _ & _).
    rewrite Hi. apply Lnoc. congruence.
  - rewrite render_timers.
    destruct (status (state h') =? timerDeps (runtime h'))%string; [lia|].
    destruct (isDone (status (state h'))); lia.
  - rewrite render_timers.
    destruct (status (state h') =? timerDeps (runtime h'))%string eqn:E.
    + apply String.eqb_eq in E. rewrite Htd, Ltd in E. rewrite Ht, E.
      exact Ltimd.
    + destruct (isDone (status (state h'))); congruence.
Qed.

Lemma mounted_lifecycle : lifecycle mounted.
Proof.
  constructor; simpl; auto; try discriminate; try lia.
Qed.

Lemma step_lifecycle h e : lifecycle h -> lifecycle (step h e).
Proof.
  intro L. destruct e as [|r| |text pid now|c|pid msg]; simpl.
  - unfold on_tick.
    destruct (pollInterval (runtime h)) eqn:Ei; simpl; [|exact L].
    destruct (isPollingRef (refs h)); [exact L|].
    destruct L as [Lpd Ltd Lrun Lidle Ldone Lnoc Ltim Ltimd].
    rewrite Ei in *. constructor; simpl; auto.
  - unfold on_response.
    destruct (in_flight (runtime h) =? 0); [exact L|].
    apply (render_lifecycle h); [exact L|].
    destruct r; repeat split.
  - unfold on_timer.
    destruct (refreshTimers (runtime h)) as [|k] eqn:Et; [exact L|].
    destruct L as [Lpd Ltd Lrun Lidle Ldone Lnoc Ltim Ltimd].
    rewrite Et in *.
    constructor; simpl; auto; lia.
  - apply (render_lifecycle h); [exact L | repeat split].
  - apply (render_lifecycle h); [exact L | repeat split].
  - apply (render_lifecycle h); [exact L | repeat split].
Qed.

Lemma run_lifecycle evs : lifecycle (run evs).
Proof.
  induction evs as [|e evs IH] using rev_ind.
  - exact mounted_lifecycle.
  - rewrite run_step. now apply step_lifecycle.
Qed.

Lemma tick_without_interval h :
  pollInterval (runtime h) = false -> step h Tick = h.
Proof. intro H. simpl. unfold on_tick. now rewrite H. Qed.

(** In every state the component can reach: while the session runs under
    a conversation id the polling interval is installed; a tick does
    nothing (no fetch) when the status is neither running nor finished,
    when the session is finished and no message is pending, and when
    there is no conversation. *)
Theorem polling_follows_the_session (evs : list event) :
  let h := run evs in
  (status (state h) = "running" ->
   forall c, conversationId (state h) = Some c -> c <> "" ->
     pollInterval (runtime h) = true)
  /\ (isDone (status (state h)) = false -> status (state h) <> "running" ->
      step h Tick = h)
  /\ (isDone (status (state h)) = true -> pendingMessages (state h) = [] ->
      step h Tick = h)
  /\ (Js.truthy (conversationId (state h)) = false -> step h Tick = h).
Proof.
  intro h. destruct (run_lifecycle evs) as [_ _ Lrun Lidle Ldone Lnoc _ _].
  fold h in Lrun, Lidle, Ldone, Lnoc.
  split; [|split; [|split]].
  - intros Hr c Hc Hne. rewrite (Lrun Hr), Hc.
    now apply JsFacts.truthy_some.
  - intros Hnd Hnr. apply tick_without_interval. auto.
  - intros Hd Hnil. apply tick_without_interval.
    destruct (pollInterval (runtime h)) eqn:Ei; [|reflexivity].
    now destruct (Ldone Hd eq_refl).
  - intro Hnc. apply tick_without_interval. auto.
Qed.

(** On the sample conversation: once the poll that confirms the user's
    message has also found the session completed, ticks do nothing. *)
Lemma polling_follows_the_session_witness :
  let h := run (demo_submitted ++ poll demo_confirmed
                ++ poll {| data_status := "completed";
                           data_messages := data_messages demo_confirmed;
                           data_errorMessage := None |}) in
  step h Tick = h.
Proof.
  cbv zeta.
  apply (proj1 (proj2 (proj2 (polling_follows_the_session
           (demo_submitted ++ poll demo_confirmed
            ++ poll {| data_status := "completed";
                       data_messages := data_messages demo_confirmed;
                       data_errorMessage := None |}))))); reflexivity.
Defined.



Lemma filter_all {A} (f : A -> bool) (l : list A) :
  Forall (fun x => f x = true) l -> filter f l = l.
Proof.
  induction 1 as [|x l Hx Hl IH]; simpl; [reflexivity|].
  now rewrite Hx, IH.
Qed.

(** A submission that fails is undone: when no pending message already
    has the id of the new one, the pending messages after the failure are
    those from before the submission, and the failure's message is
    shown. *)
Theorem failed_submission_is_undone
  (h : Home) (text pendingId now message : string) :
  Forall (fun p => id p <> pendingId) (pendingMessages (state h)) ->
  let h' := step (step h (Submit text pendingId now))
                 (SubmitFailed pendingId message) in
  pendingMessages (state h') = pendingMessages (state h)
  /\ errorMessage (state h') = Some message
  /\ isSubmitting (state h') = false
  /\ status (state h') = status (state h)
  /\ conversationId (state h') = conversationId (state h).
Proof.
  intros Hfresh h'. subst h'. simpl. repeat split.
  rewrite filter_app. simpl. rewrite String.eqb_refl. simpl.
  rewrite app_nil_r. apply filter_all.
  eapply Forall_impl; [|exact Hfresh].
  intros p Hp. simpl in Hp. apply negb_true_iff. now apply String.eqb_neq.
Qed.

Lemma failed_submission_is_undone_witness :
  pendingMessages
    (state (step (step (run demo_submitted)
                       (Submit "Again" "pending-2" "t1"))
                 (SubmitFailed "pending-2" "Failed to send message")))
  = pendingMessages (state (run demo_submitted)).
Proof.
  apply (failed_submission_is_undone (run demo_submitted)
           "Again" "pending-2" "t1" "Failed to send message").
  repeat constructor. discriminate.
Defined.

(** After a submission has succeeded with a conversation id, the session
    runs, the polling interval is installed, and the next tick sends a
    request unless one is still out. *)
Theorem successful_submission_starts_polling
  (evs : list event) (c : string) :
  c <> "" ->
  let h := run (evs ++ [SubmitOk c]) in
  status (state h) = "running"
  /\ conversationId (state h) = Some c
  /\ pollInterval (runtime h) = true
  /\ (in_flight (runtime h) = 0 ->
      fetches (runtime (step h Tick)) = fetches (runtime h) + 1).
Proof.
  intros Hne h.
  assert (status (state h) = "running" /\ conversationId (state h) = Some c)
    as [Hs Hc].
  { subst h. rewrite run_step. split; reflexivity. }
  destruct (run_lifecycle (evs ++ [SubmitOk c])) as [_ _ Lrun _ _ _ _ _].
  fold h in Lrun.
  assert (pollInterval (runtime h) = true) as Hi.
  { rewrite (Lrun Hs), Hc. now apply JsFacts.truthy_some. }
  repeat split; auto.
  intro Hf. pose proof (run_guard_consistent (evs ++ [SubmitOk c])) as G.
  fold h in G. unfold guard_consistent in G.
  simpl. unfold on_tick. rewrite Hi. simpl.
  destruct (isPollingRef (refs h)); [rewrite G in Hf; discriminate|].
  reflexivity.
Qed.

Lemma successful_submission_starts_polling_witness :
  let h := run ([Submit "Build me a site" "pending-1" "t0"]
                ++ [SubmitOk "c1"]) in
  pollInterval (runtime h) = true.
Proof.
  cbv zeta.
  exact (proj1 (proj2 (proj2 (successful_submission_starts_polling
           [Submit "Build me a site" "pending-1" "t0"] "c1"
           ltac:(discriminate))))).
Defined.


End HomeFacts.

(** ** The session log parser *)

Module SessionParserFacts.

Import Content Home SessionParser.

Lemma split_lines_nonempty s : split_lines s <> [].
Proof.
  destruct s as [|c rest]; simpl; [discriminate|].
  destruct (Ascii.eqb c (ascii_of_nat 10)); [discriminate|].
  destruct (split_lines rest); discriminate.
Qed.

Lemma split_lines_app a b :
  split_lines (a ++ String (ascii_of_nat 10) b)
  = split_lines a ++ split_lines b.
Proof.
  induction a as [|c a IH]; cbn [append split_lines].
  - rewrite Ascii.eqb_refl. reflexivity.
  - destruct (Ascii.eqb c (ascii_of_nat 10)).
    + now rewrite IH.
    + rewrite IH. destruct (split_lines a) as [|first others] eqn:E.
      * now apply split_lines_nonempty in E.
      * reflexivity.
Qed.

Lemma split_single_line s : single_line s = true -> split_lines s = [s].
Proof.
  induction s as [|c s IH]; cbn [single_line split_lines]; [reflexivity|].
  intro H. apply andb_true_iff in H as [Hc Hs].
  apply negb_true_iff in Hc. rewrite Hc, (IH Hs). reflexivity.
Qed.

Section Parser.

Variable trim : string -> string.
Variable JSON_parse : string -> option SessionEntry.

#[local] Abbreviation parse := (parseSessionJSONL trim JSON_parse).
#[local] Abbreviation parse_line' := (parse_line trim JSON_parse).

#[local] Abbreviation entry_of := (entry_of_line trim JSON_parse).

Lemma parse_line_appends entries line :
  parse_line' entries line = entries ++ entry_of line.
Proof.
  unfold entry_of_line, parse_line.
  destruct (negb (Js.truthy (Some (trim line)))); [now rewrite app_nil_r|].
  destruct (JSON_parse (trim line)) as [entry|]; [|now rewrite app_nil_r].
  destruct (accept trim entry); [reflexivity | now rewrite app_nil_r].
Qed.

Lemma fold_parse_line lines entries :
  fold_left parse_line' lines entries
  = entries ++ flat_map entry_of lines.
Proof.
  revert entries. induction lines as [|line rest IH]; intro entries; simpl.
  - now rewrite app_nil_r.
  - rewrite IH, parse_line_appends, <- app_assoc. reflexivity.
Qed.

Lemma parse_flat_map content :
  parse content = flat_map entry_of (split_lines content).
Proof. unfold parseSessionJSONL. now rewrite fold_parse_line. Qed.


Lemma parse_app (a b : string) :
  parse (a ++ String (ascii_of_nat 10) b) = parse a ++ parse b.
Proof. now rewrite !parse_flat_map, split_lines_app, flat_map_app. Qed.

(** Appending lines to a log appends entries: the entries of a log
    followed by a newline and more text are the entries of the log
    followed by the entries of that text, so what was parsed before stays,
    in place. *)
Theorem parse_of_appended_log (a b : string) :
  parseSessionJSONL trim JSON_parse (a ++ String (ascii_of_nat 10) b)
  = parseSessionJSONL trim JSON_parse a ++ parseSessionJSONL trim JSON_parse b.
Proof. apply parse_app. Qed.

(** A line that is blank after trimming, or that [JSON.parse] rejects,
    changes nothing wherever it stands in the log. *)
Theorem junk_line_is_skipped (a junk b : string) :
  single_line junk = true ->
  trim junk = "" \/ JSON_parse (trim junk) = None ->
  parse (a ++ String (ascii_of_nat 10)
              (junk ++ String (ascii_of_nat 10) b))
  = parse (a ++ String (ascii_of_nat 10) b).
Proof.
  intros Hs Hj.
  rewrite !parse_app. f_equal.
  assert (parse junk = []) as ->; [|reflexivity].
  rewrite parse_flat_map, (split_single_line junk Hs). simpl.
  rewrite app_nil_r. unfold entry_of_line, parse_line.
  destruct Hj as [-> | ->]; [reflexivity|].
  now destruct (negb (Js.truthy (Some (trim junk)))).
Qed.

Lemma entry_of_line_spec line e :
  In e (entry_of line) <->
  trim line <> "" /\ JSON_parse (trim line) = Some e /\
  accept trim e = Some e.
Proof.
  unfold entry_of_line, parse_line.
  destruct (Js.truthy (Some (trim line))) eqn:T; simpl.
  - apply JsFacts.truthy_some in T.
    destruct (JSON_parse (trim line)) as [entry|]; simpl.
    + destruct (accept trim entry) as [kept|] eqn:A; simpl.
      * assert (kept = entry) as ->.
        { unfold accept in A.
          repeat match type of A with
                 | (if ?c then _ else _) = _ => destruct c
                 | match ?c with Some _ => _ | None => _ end = _ => destruct c
                 end; congruence. }
        split.
        -- intros [->|[]]. auto.
        -- intros (_ & E & _). inversion E. now left.
      * split; [contradiction|]. intros (_ & E & A'). inversion E; subst.
        congruence.
    + split; [contradiction|]. intros (_ & E & _). discriminate.
  - apply JsFacts.truthy_false in T. split; [contradiction|].
    intros (Hne & _). destruct T as [T|T]; [discriminate|].
    inversion T. contradiction.
Qed.

Lemma accept_spec e :
  accept trim e = Some e <->
  (entry_type e = "user" \/ entry_type e = "system" \/
   (entry_type e = "assistant" /\ isInternalArtifact trim e = Some false)).
Proof.
  unfold accept.
  destruct (String.eqb_spec (entry_type e) "user") as [U|U];
    destruct (String.eqb_spec (entry_type e) "assistant") as [A|A];
    destruct (String.eqb_spec (entry_type e) "system") as [S|S]; simpl;
    destruct (isInternalArtifact trim e) as [[|]|] eqn:I;
    intuition congruence.
Qed.

(** The parser returns exactly the entries of the lines that are not
    blank after trimming, parse, have type user, assistant or system, and
    are not assistant artifacts (nor assistant entries on which the
    artifact check throws), in the order of the lines. *)
Theorem parsed_entries_are_the_kept_lines (content : string) :
  forall e,
    In e (parse content) <->
    exists line,
      In line (split_lines content) /\ trim line <> "" /\
      JSON_parse (trim line) = Some e /\
      (entry_type e = "user" \/ entry_type e = "system" \/
       (entry_type e = "assistant" /\
        isInternalArtifact trim e = Some false)).
Proof.
  intro e. rewrite parse_flat_map, in_flat_map.
  split; intros (line & Hin & H); exists line; (split; [exact Hin|]).
  - apply entry_of_line_spec in H as (Hne & E & A).
    apply accept_spec in A. auto.
  - destruct H as (Hne & E & A). apply entry_of_line_spec.
    apply accept_spec in A. auto.
Qed.

Lemma no_tool_use content :
  existsb (fun b => (block_type b =? "tool_use")%string) content = false <->
  Forall (fun b => block_type b <> "tool_use") content.
Proof.
  induction content as [|b rest IH]; simpl.
  - split; auto.
  - rewrite orb_false_iff, IH. split.
    + intros [Hb Hr]. constructor; [now apply String.eqb_neq | exact Hr].
    + intro H. inversion H; subst. split; [now apply String.eqb_neq | auto].
Qed.

(** On an assistant entry whose text blocks all carry a text, the
    artifact check does not throw, and it answers yes exactly when the
    entry has no content, or has no tool invocation and exactly one text
    block, whose trimmed text is "No response requested."; blocks of
    other types beside that one do not count. *)
Theorem artifact_check_in_words
  (entry : SessionEntry) (content : list ContentBlock) :
  entry_content entry = ContentArray content ->
  (forall b, In b content -> block_type b = "text" -> block_text b <> None) ->
  exists answer,
    isInternalArtifact trim entry = Some answer /\
    (answer = true <-> artifact_in_words trim content).
Proof.
  intros E Htyped. unfold isInternalArtifact, artifact_in_words, Js.some.
  rewrite E.
  destruct content as [|b0 rest0] eqn:Ec; [exists true; simpl; tauto|].
  rewrite <- Ec in *. assert (content <> []) as Hne by (subst; discriminate).
  replace (List.length content =? 0) with false
    by (subst; reflexivity).
  destruct (existsb (fun b => (block_type b =? "tool_use")%string) content)
    eqn:Tool.
  - exists false. split; [reflexivity|]. split; [discriminate|].
    intros [H|[H _]]; [contradiction|].
    apply no_tool_use in H. congruence.
  - apply no_tool_use in Tool.
    destruct (filter (fun b => (block_type b =? "text")%string) content)
      as [|b [|b' more]] eqn:F.
    + exists false. split; [reflexivity|]. split; [discriminate|].
      intros [H|[_ (b & t & H & _)]]; [contradiction | discriminate].
    + assert (In b content /\ block_type b = "text") as [Hin Hty].
      { assert (In b (filter (fun b => (block_type b =? "text")%string)
                        content)) as H by (rewrite F; now left).
        apply filter_In in H as [Hin Hty].
        split; [exact Hin | now apply String.eqb_eq]. }
      destruct (block_text b) as [text|] eqn:Et;
        [|now destruct (Htyped b Hin Hty)].
      exists (ARTIFACT_TEXTS_has (trim text)). split; [reflexivity|].
      unfold ARTIFACT_TEXTS_has, ARTIFACT_TEXTS. simpl.
      rewrite orb_false_r, String.eqb_eq. split.
      * intro H. right. split; [exact Tool|]. exists b, text. auto.
      * intros [H|[_ (b1 & t1 & Hb & Ht & Htrim)]]; [contradiction|].
        inversion Hb; subst. congruence.
    + exists false. split; [reflexivity|]. split; [discriminate|].
      intros [H|[_ (b1 & t1 & H & _)]]; [contradiction | discriminate].
Qed.

End Parser.

Lemma append_cancel_l (p a b : string) :
  (p ++ a)%string = (p ++ b)%string -> a = b.
Proof.
  induction p as [|c p IH]; simpl; intro H; [exact H|].
  inversion H. auto.
Qed.

Lemma length_append (a b : string) :
  String.length (a ++ b) = String.length a + String.length b.
Proof. induction a as [|c a IH]; simpl; congruence. Qed.

Lemma append_cancel_r (a b s : string) :
  (a ++ s)%string = (b ++ s)%string -> a = b.
Proof.
  revert b. induction a as [|c a IH]; intros [|d b] H; simpl in H.
  - reflexivity.
  - apply (f_equal String.length) in H. simpl in H.
    rewrite length_append in H. lia.
  - apply (f_equal String.length) in H. simpl in H.
    rewrite length_append in H. lia.
  - inversion H. f_equal. auto.
Qed.

(** Two sessions never share a log file: the path determines the session
    id. *)
Theorem getSessionFilePath_injective (sessionId sessionId' : string) :
  getSessionFilePath sessionId = getSessionFilePath sessionId' ->
  sessionId = sessionId'.
Proof.
  unfold getSessionFilePath. intro H.
  apply append_cancel_l in H. now apply append_cancel_r in H.
Qed.

Lemma getSessionFilePath_injective_witness :
  "abc" = "abc".
Proof.
  exact (getSessionFilePath_injective "abc" "abc" eq_refl).
Defined.

(** A log of a user line, a blank line, a line that does not parse and a
    placeholder reply, read after a reply line was appended to it. *)
Example appended_log_sample :
  parseSessionJSONL demo_trim demo_JSON_parse
    (("user-line" ++ String (ascii_of_nat 10)
        ("   " ++ String (ascii_of_nat 10)
           ("{oops" ++ String (ascii_of_nat 10) " placeholder-line")))
     ++ String (ascii_of_nat 10) "reply-line")
  = [demo_user_entry; demo_reply].
Proof. reflexivity. Qed.

Lemma junk_line_is_skipped_witness :
  parseSessionJSONL demo_trim demo_JSON_parse
    ("user-line" ++ String (ascii_of_nat 10)
       ("{oops" ++ String (ascii_of_nat 10) "reply-line"))
  = parseSessionJSONL demo_trim demo_JSON_parse
      ("user-line" ++ String (ascii_of_nat 10) "reply-line").
Proof.
  apply (junk_line_is_skipped demo_trim demo_JSON_parse
           "user-line" "{oops" "reply-line").
  - reflexivity.
  - right. reflexivity.
Defined.

Lemma artifact_check_in_words_witness :
  exists answer,
    isInternalArtifact demo_trim demo_placeholder_entry = Some answer /\
    (answer = true <->
     artifact_in_words demo_trim
       [{| block_type := "thinking"; block_text := None |};
        text_segment " No response requested. "]).
Proof.
  apply (artifact_check_in_words demo_trim demo_placeholder_entry).
  - reflexivity.
  - intros b [<-|[<-|[]]]; discriminate.
Defined.

End SessionParserFacts.


(** ** The conversation routes *)

Module RoutesFacts.

Import Routes.

Lemma put_same db c : put db c (id c) = Some c.
Proof. unfold put. now rewrite String.eqb_refl. Qed.

Lemma put_other db c key : key <> id c -> put db c key = db key.
Proof. unfold put. intro H. apply String.eqb_neq in H. now rewrite H. Qed.

Lemma update_same db key data c :
  db key = Some c -> update db key data key = Some (data c).
Proof. unfold update. intros ->. now rewrite String.eqb_refl. Qed.

Lemma update_other db key data key' :
  key' <> key -> update db key data key' = db key'.
Proof. unfold update. intro H. apply String.eqb_neq in H. now rewrite H. Qed.

Lemma put_consistent db c :
  consistent db -> (sandboxId c <> None -> status c = "running") ->
  consistent (put db c).
Proof.
  intros Hdb Hc key c' H. unfold put in H.
  destruct (String.eqb_spec key (id c)) as [->|Hne].
  - inversion H; subst. auto.
  - now apply Hdb.
Qed.

Lemma update_consistent db key data :
  consistent db ->
  (forall c, db key = Some c ->
     id (data c) = id c /\
     (sandboxId (data c) <> None -> status (data c) = "running")) ->
  consistent (update db key data).
Proof.
  intros Hdb Hdata key' c' H. unfold update in H.
  destruct (String.eqb_spec key' key) as [->|Hne].
  - destruct (db key) as [c|] eqn:E; [|discriminate].
    inversion H; subst. destruct (Hdata c eq_refl) as [Hid Hs].
    split; [|exact Hs]. rewrite Hid. now apply (Hdb key c).
  - now apply Hdb.
Qed.

Section Handlers.

Variable trim : string -> string.

#[local] Abbreviation send' := (send trim).
#[local] Abbreviation after' := (after trim).
#[local] Abbreviation handle' := (handle trim).
#[local] Abbreviation serve' := (serve trim).

Lemma empty_consistent : consistent empty.
Proof. intros key c H. discriminate. Qed.

Lemma after_consistent db r : consistent db -> consistent (after' db r).
Proof.
  intro Hdb. unfold after, handle. destruct r as [newId volume sandbox body|kill k body].
  - unfold send.
    destruct (send_content body) as [content|]; [|exact Hdb].
    destruct (negb (Js.truthy (Some (trim content)))); [exact Hdb|].
    assert (consistent
              (put db {| id := newId; status := "idle"; volumeId := None;
                         sessionId := None; sandboxId := None;
                         errorMessage := None |})) as Hcreated.
    { apply put_consistent; [exact Hdb|]. simpl. congruence. }
    assert (forall v,
              consistent
                (update (put db {| id := newId; status := "idle";
                                   volumeId := None; sessionId := None;
                                   sandboxId := None; errorMessage := None |})
                        newId (set_volume v))) as Hvolume.
    { intro v. apply update_consistent; [exact Hcreated|].
      intros c Hc. change newId
        with (id {| id := newId; status := "idle"; volumeId := None;
                    sessionId := None; sandboxId := None;
                    errorMessage := None |}) in Hc.
      rewrite put_same in Hc. inversion Hc; subst. simpl. split; congruence. }
    assert (forall db' key sb,
              consistent db' ->
              consistent (update db' key (set_running sb))) as Hrun.
    { intros db' key sb H. apply update_consistent; [exact H|].
      intros c _. simpl. auto. }
    destruct (send_conversationId body) as [k|];
      [destruct (Js.truthy (Some k))|].
    + unfold follow_up. destruct (db k) as [c|]; simpl; [|exact Hdb].
      destruct (status c =? "running")%string; simpl; [exact Hdb|].
      destruct sandbox; simpl; auto.
    + unfold new_conversation. destruct volume; simpl; auto.
      destruct sandbox; simpl; auto.
    + unfold new_conversation. destruct volume; simpl; auto.
      destruct sandbox; simpl; auto.
  - unfold report. destruct (db k) as [c|] eqn:E; simpl; [|exact Hdb].
    assert (consistent
              (update db k
                 (fun c0 =>
                    {| id := id c0; status := cb_status body;
                       volumeId := volumeId c0;
                       sessionId := Js.or_else (cb_sessionId body)
                                               (sessionId c);
                       sandboxId := None;
                       errorMessage := Js.or_else (cb_errorMessage body)
                                                  None |}))) as H.
    { apply update_consistent; [exact Hdb|]. intros c0 _. simpl.
      split; congruence. }
    destruct (sandboxId c) as [sb|]; simpl; auto.
    destruct (negb (sb =? "")%string); [destruct kill|]; simpl; auto.
Qed.

Lemma serve_step rs r : serve' (rs ++ [r]) = after' (serve' rs) r.
Proof. unfold serve. now rewrite fold_left_app. Qed.

Lemma serve_consistent rs : consistent (serve' rs).
Proof.
  induction rs as [|r rs IH] using rev_ind.
  - exact empty_consistent.
  - rewrite serve_step. now apply after_consistent.
Qed.


Lemma truthy_trimmed content :
  negb (Js.truthy (Some (trim content))) = false <-> trim content <> "".
Proof. rewrite negb_false_iff. apply JsFacts.truthy_some. Qed.

(** The branch of a new conversation, for both ways into it. *)
Ltac new_conversation_case volume sandbox content_ok :=
  unfold new_conversation;
  let v' := fresh "v'" in
  let Hin := fresh "Hin" in
  let H := fresh "H" in
  destruct volume as [v'|?]; destruct sandbox as [?|?]; simpl;
  (split; [lia|]); intros ? ? ? ? Hin;
  [ destruct Hin as [H|[H|[]]]; [discriminate|]; inversion H; subst;
    (split; [reflexivity|]); (split; [exact content_ok|]); left;
    repeat split; auto; now exists v'
  | destruct Hin as [H|[H|[]]]; [discriminate|]; inversion H; subst;
    (split; [reflexivity|]); (split; [exact content_ok|]); left;
    repeat split; auto; now exists v'
  | destruct Hin as [H|[]]; discriminate
  | destruct Hin as [H|[]]; discriminate ].

(** A request to send a message launches at most one agent, and only for
    content that is not blank after trimming and a conversation that is
    not running: the new conversation, on its new volume and with no
    session to resume, or the existing one named in the request, on its
    own volume and resuming its stored session; in a consistent table
    that existing conversation records no sandbox when the agent is
    launched. *)
Theorem agent_launched_only_when_not_running
  (newId : string) (volume sandbox : outcome string)
  (db : DB) (body : SendMessageRequest) :
  let calls := snd (send' newId volume sandbox db body) in
  List.length (filter is_launch calls) <= 1
  /\ forall v k content session,
       In (CreateAndLaunchAgent v k content session) calls ->
       send_content body = Some content /\ trim content <> "" /\
       ((Js.truthy (send_conversationId body) = false /\ k = newId /\
         session = None /\ exists v', volume = Returns v' /\ v = Some v')
        \/ (exists key c,
              send_conversationId body = Some key /\ key <> "" /\
              db key = Some c /\ status c <> "running" /\
              k = id c /\ v = volumeId c /\
              session = Js.or_else (sessionId c) None /\
              (consistent db -> sandboxId c = None))).
Proof.
  unfold send. cbv zeta.
  destruct (send_content body) as [content|] eqn:Ec;
    [|simpl; split; [lia | contradiction]].
  destruct (negb (Js.truthy (Some (trim content)))) eqn:Et;
    [simpl; split; [lia | contradiction]|].
  apply truthy_trimmed in Et.
  destruct (send_conversationId body) as [key|] eqn:Ek;
    [destruct (Js.truthy (Some key)) eqn:Tk|].
  - (* a follow-up *)
    unfold follow_up. destruct (db key) as [c|] eqn:Ed;
      [|simpl; split; [lia | contradiction]].
    destruct (status c =? "running")%string eqn:Es;
      [simpl; split; [lia | contradiction]|].
    apply String.eqb_neq in Es. apply JsFacts.truthy_some in Tk.
    assert (consistent db -> sandboxId c = None) as Hnone.
    { intro Hdb. destruct (Hdb key c Ed) as [_ Hs].
      destruct (sandboxId c); [|reflexivity].
      exfalso. apply Es, Hs. discriminate. }
    destruct sandbox as [sb|m']; simpl; (split; [lia|]);
      intros v k c1 s1 [H|[]]; inversion H; subst;
      (split; [reflexivity|]); (split; [exact Et|]); right;
      exists key, c; repeat split; auto.
  - (* an empty conversation id: a new conversation *)
    new_conversation_case volume sandbox Et.
  - (* no conversation id: a new conversation *)
    new_conversation_case volume sandbox Et.
Qed.

(** Whatever requests were served, every row of the table is stored
    under its own id and records a sandbox only while its status is
    "running". *)
Theorem sandbox_recorded_only_while_running (rs : list request) :
  forall key c,
    serve' rs key = Some c ->
    id c = key /\ (sandboxId c <> None -> status c = "running").
Proof. exact (serve_consistent rs). Qed.

(** A request that is refused (400, 404, 409) changes no row and makes no
    call; a request answered with the running conversation leaves, in a
    consistent table, that conversation running with the sandbox the
    launch returned, and every other row as it was. *)
Theorem send_reply_matches_table
  (newId : string) (volume sandbox : outcome string)
  (db : DB) (body : SendMessageRequest) :
  let r := send' newId volume sandbox db body in
  (forall code message,
     fst (fst r) = Error code message -> code <> 500 ->
     snd (fst r) = db /\ snd r = [])
  /\ (forall k,
        consistent db -> fst (fst r) = Running k ->
        exists c sb,
          sandbox = Returns sb /\ snd (fst r) k = Some c /\
          id c = k /\ status c = "running" /\ sandboxId c = Some sb /\
          forall key, key <> k -> snd (fst r) key = db key).
Proof.
  unfold send. cbv zeta.
  destruct (send_content body) as [content|];
    [|simpl; split; [auto | discriminate]].
  destruct (negb (Js.truthy (Some (trim content))));
    [simpl; split; [auto | discriminate]|].
  assert (let r :=
            match new_conversation db newId volume with
            | inl (conversationId, volumeId, sessionId, db', calls) =>
                let calls' :=
                  calls ++ [CreateAndLaunchAgent volumeId conversationId
                              content sessionId] in
                match sandbox with
                | Returns sandboxId =>
                    (Running conversationId,
                     update db' conversationId (set_running sandboxId),
                     calls')
                | Throws message => (Error 500 message, db', calls')
                end
            | inr ended => ended
            end in
          (forall code message,
             fst (fst r) = Error code message -> code <> 500 ->
             snd (fst r) = db /\ snd r = [])
          /\ (forall k,
                consistent db -> fst (fst r) = Running k ->
                exists c sb,
                  sandbox = Returns sb /\ snd (fst r) k = Some c /\
                  id c = k /\ status c = "running" /\
                  sandboxId c = Some sb /\
                  forall key, key <> k -> snd (fst r) key = db key)) as Hnew.
  { unfold new_conversation.
    destruct volume as [v|m]; destruct sandbox as [sb|m']; simpl;
      (split; [intros code message H Hc; inversion H; congruence|]);
      intros k Hdb H; inversion H; subst.
    eexists; exists sb. split; [reflexivity|].
    unfold update, put. simpl. rewrite !String.eqb_refl. simpl.
    repeat split; auto.
    intros key Hne. apply String.eqb_neq in Hne. now rewrite Hne. }
  destruct (send_conversationId body) as [key|];
    [destruct (Js.truthy (Some key))|]; try exact Hnew.
  unfold follow_up. destruct (db key) as [c|] eqn:Ed;
    [|simpl; split; [auto | discriminate]].
  destruct (status c =? "running")%string;
    [simpl; split; [auto | discriminate]|].
  destruct sandbox as [sb|m']; simpl;
    (split; [intros code message H Hc; inversion H; congruence|]);
    intros k Hdb H; inversion H; subst.
  destruct (Hdb key c Ed) as [Hid _]. rewrite Hid in *.
  exists (set_running sb c), sb. split; [reflexivity|].
  rewrite (update_same db key _ c Ed). simpl.
  repeat split; auto.
  intros key' Hne. now apply update_other.
Qed.

(** One turn and the next: after a follow-up message to a conversation
    that is not running has launched an agent, and the status route has
    been told that the session completed under a session id, the row is
    completed, records no sandbox and holds that session id, the sandbox
    of the turn was asked to be killed (whether or not that succeeds),
    and the next follow-up launches its agent on the same volume,
    resuming that session. *)
Theorem next_turn_resumes_the_reported_session
  (db : DB) (k : string) (c : Conversation)
  (content content' sb sid newId newId' : string)
  (volume volume' sandbox' : outcome string) (kill : outcome unit) :
  consistent db -> db k = Some c -> k <> "" ->
  status c <> "running" ->
  trim content <> "" -> trim content' <> "" -> sb <> "" -> sid <> "" ->
  let db1 :=
    after' db (Send newId volume (Returns sb)
                 {| send_conversationId := Some k;
                    send_content := Some content |}) in
  let reported :=
    report kill db1 k {| cb_status := "completed"; cb_errorMessage := None;
                         cb_sessionId := Some sid |} in
  let db2 := snd (fst reported) in
  snd reported = [KillSandbox sb]
  /\ (exists c2,
        db2 k = Some c2 /\ status c2 = "completed" /\
        sandboxId c2 = None /\ sessionId c2 = Some sid /\
        volumeId c2 = volumeId c)
  /\ snd (send' newId' volume' sandbox' db2
            {| send_conversationId := Some k;
               send_content := Some content' |})
     = [CreateAndLaunchAgent (volumeId c) k content' (Some sid)].
Proof.
  intros Hdb Ed Hk Hs Hc Hc' Hsb Hsid db1 reported db2.
  destruct (Hdb k c Ed) as [Hid _].
  apply truthy_trimmed in Hc, Hc'.
  apply JsFacts.truthy_some in Hk as Tk, Hsb as Tsb, Hsid as Tsid.
  apply String.eqb_neq in Hs.
  assert (db1 = update db k (set_running sb)) as E1.
  { subst db1. unfold after, handle, send.
    cbn [send_content send_conversationId].
    rewrite Hc, Tk. unfold follow_up. rewrite Ed, Hs.
    cbn [fst snd app]. now rewrite Hid. }
  assert (db1 k = Some (set_running sb c)) as Ed1
    by (rewrite E1; now apply update_same).
  set (db2' := update db1 k
                 (fun c0 =>
                    {| id := id c0; status := "completed";
                       volumeId := volumeId c0;
                       sessionId := Js.or_else (Some sid)
                                      (sessionId (set_running sb c));
                       sandboxId := None;
                       errorMessage := Js.or_else None None |})).
  assert (exists r, reported = (r, db2', [KillSandbox sb])) as [r Er].
  { subst reported. unfold report. rewrite Ed1.
    cbn [sandboxId set_running cb_status cb_sessionId cb_errorMessage].
    rewrite Tsb. fold db2'. destruct kill; eexists; reflexivity. }
  subst db2. rewrite Er. cbn [fst snd].
  assert (db2' k = Some {| id := id c; status := "completed";
                           volumeId := volumeId c; sessionId := Some sid;
                           sandboxId := None; errorMessage := None |})
    as Ed2.
  { subst db2'. rewrite (update_same db1 k _ _ Ed1).
    cbn [id status volumeId sessionId set_running].
    unfold Js.or_else. rewrite Tsid. reflexivity. }
  split; [reflexivity|]. split.
  - eexists. split; [exact Ed2|]. repeat split.
  - unfold send. cbn [send_content send_conversationId].
    rewrite Hc', Tk. unfold follow_up. rewrite Ed2.
    cbn [status id volumeId sessionId].
    unfold Js.or_else. rewrite Tsid, Hid.
    now destruct sandbox'.
Qed.

(** However the kill of the sandbox ends, a status report for a known
    conversation stores the reported status, clears the sandbox, keeps
    the stored session id unless a non-empty one is reported, leaves the
    other rows alone, and asks for the recorded sandbox, if any, to be
    killed; a report for an unknown conversation changes nothing. *)
Theorem report_stores_the_status
  (kill : outcome unit) (db : DB) (k : string)
  (body : StatusCallbackRequest) :
  let r := report kill db k body in
  (db k = None ->
   r = (Error 404 "Conversation not found", db, []))
  /\ (forall c, db k = Some c ->
        (exists c',
           snd (fst r) k = Some c' /\ status c' = cb_status body /\
           sandboxId c' = None /\ volumeId c' = volumeId c /\
           (Js.truthy (cb_sessionId body) = false ->
            sessionId c' = sessionId c) /\
           (Js.truthy (cb_sessionId body) = true ->
            sessionId c' = cb_sessionId body))
        /\ (forall key, key <> k -> snd (fst r) key = db key)
        /\ (forall sb, sandboxId c = Some sb -> sb <> "" ->
              snd r = [KillSandbox sb])
        /\ (Js.truthy (sandboxId c) = false ->
              snd r = [] /\ fst (fst r) = Success)).
Proof.
  unfold report. cbv zeta. split.
  - now intros ->.
  - intros c Ed. rewrite Ed.
    set (db' := update db k _).
    assert (exists reply calls,
              match sandboxId c with
              | Some sandbox =>
                  if Js.truthy (sandboxId c)
                  then match kill with
                       | Returns _ => (Success, db', [KillSandbox sandbox])
                       | Throws message =>
                           (Error 500 message, db', [KillSandbox sandbox])
                       end
                  else (Success, db', [])
              | None => (Success, db', [])
              end = (reply, db', calls)
              /\ (forall sb, sandboxId c = Some sb -> sb <> "" ->
                    calls = [KillSandbox sb])
              /\ (Js.truthy (sandboxId c) = false ->
                    calls = [] /\ reply = Success))
      as (reply & calls & -> & Hkill & Hnone).
    { destruct (sandboxId c) as [sb|] eqn:Es.
      - destruct (Js.truthy (Some sb)) eqn:Ts.
        + destruct kill; do 2 eexists; (split; [reflexivity|]);
            (split; [intros sb' E _; inversion E; reflexivity
                    | discriminate]).
        + do 2 eexists. split; [reflexivity|]. split; [|auto].
          intros sb' E Hne. inversion E; subst.
          apply JsFacts.truthy_some in Hne. congruence.
      - do 2 eexists. split; [reflexivity|]. split; [discriminate | auto]. }
    cbn [fst snd]. repeat split; auto.
    + eexists. split; [subst db'; apply (update_same db k _ c Ed)|].
      cbn [status sandboxId volumeId sessionId]. unfold Js.or_else.
      repeat split; intro H; now rewrite H.
    + intros key Hne. subst db'. now apply update_other.
    + now apply Hnone.
    + now apply Hnone.
Qed.

End Handlers.

(** The first message of the sample conversation launches its agent. *)
Lemma agent_launched_only_when_not_running_witness :
  Some "Build me a site" = Some "Build me a site"
  /\ SessionParser.demo_trim "Build me a site" <> "".
Proof.
  pose proof (proj2 (agent_launched_only_when_not_running
                SessionParser.demo_trim "c1" (Returns "v1") (Returns "s1")
                empty
                {| send_conversationId := None;
                   send_content := Some "Build me a site" |})
                (Some "v1") "c1" "Build me a site" None
                (or_intror (or_introl eq_refl))) as (H1 & H2 & _).
  exact (conj H1 H2).
Defined.

(** After the first message the row is running with its sandbox. *)
Lemma sandbox_recorded_only_while_running_witness :
  exists c,
    serve SessionParser.demo_trim [demo_first] "c1" = Some c /\
    id c = "c1" /\ (sandboxId c <> None -> status c = "running").
Proof.
  eexists. split; [reflexivity|].
  apply (sandbox_recorded_only_while_running SessionParser.demo_trim
           [demo_first] "c1").
  reflexivity.
Defined.

(** A second message while the first turn runs is refused with 409. *)
Lemma send_reply_matches_table_witness :
  let db := serve SessionParser.demo_trim [demo_first] in
  snd (fst (send SessionParser.demo_trim "c2" (Returns "v2") (Returns "s2")
              db demo_second)) = db
  /\ snd (send SessionParser.demo_trim "c2" (Returns "v2") (Returns "s2")
            db demo_second) = [].
Proof.
  cbv zeta.
  apply (proj1 (send_reply_matches_table SessionParser.demo_trim
                  "c2" (Returns "v2") (Returns "s2")
                  (serve SessionParser.demo_trim [demo_first]) demo_second)
           409 "Conversation is already running").
  - reflexivity.
  - discriminate.
Defined.

(** The second turn of the sample conversation, after the first was
    reported completed under the session "abc". *)
Lemma next_turn_resumes_the_reported_session_witness :
  let db := serve SessionParser.demo_trim [demo_first; demo_report] in
  let db1 :=
    after SessionParser.demo_trim db
          (Send "c2" (Returns "v2") (Returns "s2") demo_second) in
  let db2 :=
    snd (fst (report (Throws "kill failed") db1 "c1"
                {| cb_status := "completed"; cb_errorMessage := None;
                   cb_sessionId := Some "def" |})) in
  snd (send SessionParser.demo_trim "c3" (Returns "v3") (Returns "s3") db2
         {| send_conversationId := Some "c1";
            send_content := Some "And a footer" |})
  = [CreateAndLaunchAgent (Some "v1") "c1" "And a footer" (Some "def")].
Proof.
  cbv zeta.
  refine (proj2 (proj2 (next_turn_resumes_the_reported_session
            SessionParser.demo_trim
            (serve SessionParser.demo_trim [demo_first; demo_report])
            "c1" _ "Add a contact page" "And a footer" "s2" "def" "c2" "c3"
            (Returns "v2") (Returns "v3") (Returns "s3")
            (Throws "kill failed")
            (serve_consistent SessionParser.demo_trim
               [demo_first; demo_report])
            eq_refl _ _ _ _ _ _))); simpl; discriminate.
Defined.

(** The report that ends the first turn of the sample conversation. *)
Lemma report_stores_the_status_witness :
  snd (report (Returns tt) (serve SessionParser.demo_trim [demo_first]) "c1"
         {| cb_status := "completed"; cb_errorMessage := None;
            cb_sessionId := Some "abc" |})
  = [KillSandbox "s1"].
Proof.
  refine (proj1 (proj2 (proj2 (proj2 (report_stores_the_status
            (Returns tt) (serve SessionParser.demo_trim [demo_first]) "c1"
            {| cb_status := "completed"; cb_errorMessage := None;
               cb_sessionId := Some "abc" |}) _ eq_refl))) "s1" eq_refl _).
  discriminate.
Defined.

End RoutesFacts.
